(** * tak-strategies: the board and stack engine of [game.py]

    A shallow embedding of [src/game.py] (classes [Piece], [Field],
    [Place], [Move] and [Board]) followed by the properties of the
    natural-language specification, each one settled against the code.

    Python objects that are mutated in place and may be reached through
    several names ([Piece] instances, flattened by [Piece.flatten]) live
    in a store indexed by references; stacks hold references.  Python
    exceptions are values of [exn]; a raising call keeps every mutation
    performed before the raise, so a computation returns its outcome
    together with the store it leaves behind. *)

From Stdlib Require Import ZArith List String Bool Lia.
From stdpp Require Import base option list gmap strings.

Local Open Scope Z_scope.

(** ** Python exceptions *)

(** Every [assert] of the file raises the same [AssertionError]; the
    site records which statement raised it. *)
Inductive assert_site : Set :=
| PieceColor        (* Piece.__init__ : color in [BLACK, WHITE] *)
| PieceType         (* Piece.__init__ : piece_type in STONE_TYPES *)
| FlattenCapstone   (* Piece.flatten  : 'Capstones cannot be flattened.' *)
| PlayOntoFlat      (* Field.add_stack: 'Can only play pieces onto flat stones.' *)
| TakeHeight        (* Field.take_stones: self.height >= count *)
| MoveCoordinates   (* Move.__init__  : x >= 0 and y >= 0 *)
| MoveDirection     (* Move.__init__  : direction in [UP, DOWN, LEFT, RIGHT] *)
| MoveListNonNeg    (* Move.__init__  : min(move_list) >= 0 *)
| FieldBounds       (* Board.field    : 0 <= x < size and 0 <= y < size *)
| PlaceOnEmpty      (* Board.apply    : target of a Place is empty *)
| CarryLimit.       (* Board.apply    : action.height <= self._size *)

Inductive exn : Set :=
| AssertionError (site : assert_site)
| IndexError
| KeyError
| ValueError
| TypeError
| NoSuchObject. (* a reference outside the store; no Python run reaches it *)

Inductive result (A : Type) : Type :=
| Ok (a : A)
| Raise (e : exn).
Arguments Ok {A} a.
Arguments Raise {A} e.

(** ** Computations over a mutable state *)

Definition M (S A : Type) : Type := S -> result A * S.

Definition ret {S A} (a : A) : M S A := fun s => (Ok a, s).
Definition raise {S A} (e : exn) : M S A := fun s => (Raise e, s).
Definition bind {S A B} (m : M S A) (k : A -> M S B) : M S B :=
  fun s => match m s with
           | (Ok a, s') => k a s'
           | (Raise e, s') => (Raise e, s')
           end.
Definition gets {S A} (f : S -> A) : M S A := fun s => (Ok (f s), s).
Definition modify {S} (f : S -> S) : M S unit := fun s => (Ok tt, f s).
Definition lift {S A} (r : result A) : M S A := fun s => (r, s).

(** [assert c] at the given site. *)
Definition assert_ {S} (site : assert_site) (c : bool) : M S unit :=
  if c then ret tt else raise (AssertionError site).

(** Run a computation on a part [T] of the state [S]. *)
Definition zoom {S T A} (get : S -> T) (set : T -> S -> S) (m : M T A) : M S A :=
  fun s => let (r, t') := m (get s) in (r, set t' s).

Declare Scope py_scope.
Delimit Scope py_scope with py.
Notation "x <- c1 ;; c2" := (bind c1 (fun x => c2))
  (at level 100, c1 at next level, right associativity) : py_scope.
Notation "c1 ;; c2" := (bind c1 (fun _ => c2))
  (at level 100, right associativity) : py_scope.
Local Open Scope py_scope.

(** ** Python sequence primitives *)

Module Py.

(** A slice bound is clamped to the sequence: a negative bound counts
    from the end, and [-0] is [0]. *)
Definition slice_bound (len i : Z) : nat :=
  Z.to_nat (if i <? 0 then Z.max (len + i) 0 else Z.min i len).

(** [l[a:]] *)
Definition slice_from {A} (l : list A) (a : Z) : list A :=
  drop (slice_bound (Z.of_nat (length l)) a) l.

(** [l[:b]] *)
Definition slice_to {A} (l : list A) (b : Z) : list A :=
  take (slice_bound (Z.of_nat (length l)) b) l.

(** [l[i]] *)
Definition index {A} (l : list A) (i : Z) : result A :=
  let len := Z.of_nat (length l) in
  let j := if i <? 0 then len + i else i in
  if (j <? 0) || (len <=? j) then Raise IndexError
  else match l !! Z.to_nat j with
       | Some a => Ok a
       | None => Raise IndexError
       end.

(** [min(l)] on integers *)
Definition min (l : list Z) : result Z :=
  match l with
  | [] => Raise ValueError
  | a :: l' => Ok (fold_left Z.min l' a)
  end.

(** [sum(l)] on integers *)
Definition sum (l : list Z) : Z := fold_left Z.add l 0.

(** [s in l] on strings *)
Definition str_in (s : string) (l : list string) : bool :=
  existsb (String.eqb s) l.

(** The two values compared by the assertion of [Piece.flatten]:
    the builtin class [type] and a string. *)
Inductive value : Set :=
| builtin_type
| str (s : string).

Definition ne (a b : value) : bool :=
  match a, b with
  | builtin_type, builtin_type => false
  | str s, str s' => negb (String.eqb s s')
  | _, _ => true
  end.

End Py.

(** ** Module constants *)

Definition WHITE : string := "white".
Definition BLACK : string := "black".
Definition CAP : string := "cap".
Definition FLAT : string := "flat".
Definition WALL : string := "wall".
Definition STONE_TYPES : list string := [CAP; FLAT; WALL].

(** ** class Piece *)

Definition ref : Set := positive.

Module Piece.

Record t : Set := mk { color : string; type : string }.

(** The store of [Piece] objects. *)
Abbreviation store := (gmap positive t).

Definition deref (self : ref) : M store t :=
  fun h => match h !! self with
           | Some p => (Ok p, h)
           | None => (Raise NoSuchObject, h)
           end.

(** [self.type = v] *)
Definition set_type (self : ref) (v : string) : M store unit :=
  p <- deref self ;;
  modify (fun h => <[self := mk (color p) v]> h).

(** [Piece(color, piece_type)]: a new object at a fresh reference. *)
Definition init (color piece_type : string) : M store ref :=
  assert_ PieceColor (Py.str_in color [BLACK; WHITE]) ;;
  assert_ PieceType (Py.str_in piece_type STONE_TYPES) ;;
  self <- gets (fun h : store => fresh (dom h)) ;;
  modify (fun h : store => <[self := mk color piece_type]> h) ;;
  ret self.

(** [flatten]: the assertion compares the builtin [type], not
    [self.type], with [CAP]. *)
Definition flatten (self : ref) : M store unit :=
  assert_ FlattenCapstone (Py.ne Py.builtin_type (Py.str CAP)) ;;
  set_type self FLAT.

Definition is_capstone (self : ref) : M store bool :=
  p <- deref self ;;
  ret (String.eqb (type p) CAP).

End Piece.

(** ** class Field *)

Module Field.

Record t : Set := mk { _stack : list ref }.

(** A method of [Field] sees the store of pieces and its own object. *)
Definition state : Type := Piece.store * t.

Definition pieces {A} (m : M Piece.store A) : M state A :=
  zoom fst (fun h s => (h, snd s)) m.

Definition stack_ : M state (list ref) := gets (fun s => _stack (snd s)).
Definition set_stack (l : list ref) : M state unit :=
  modify (fun s => (fst s, mk l)).

Definition init : t := mk [].

(** [self._stack[-1]] *)
Definition top : M state ref :=
  l <- stack_ ;;
  lift (Py.index l (-1)).

Definition empty : M state bool :=
  l <- stack_ ;;
  ret (Z.of_nat (length l) =? 0).

Definition height : M state Z :=
  l <- stack_ ;;
  ret (Z.of_nat (length l)).

Definition controlled_by : M state string :=
  r <- top ;;
  p <- pieces (Piece.deref r) ;;
  ret (Piece.color p).

Definition add_stack (stack : list ref) : M state unit :=
  e <- empty ;;
  (if negb e then
     b <- lift (Py.index stack 0) ;;
     c <- pieces (Piece.is_capstone b) ;;
     (if c then
        r <- top ;;
        pieces (Piece.flatten r)
      else ret tt) ;;
     r <- top ;;
     p <- pieces (Piece.deref r) ;;
     assert_ PlayOntoFlat (String.eqb (Piece.type p) FLAT)
   else ret tt) ;;
  l <- stack_ ;;
  set_stack (l ++ stack).

Definition add_stone (piece : ref) : M state unit :=
  add_stack [piece].

Definition take_stones (count : Z) : M state (list ref) :=
  h <- height ;;
  assert_ TakeHeight (h >=? count) ;;
  l <- stack_ ;;
  let new_stack := Py.slice_from l (- count) in
  l <- stack_ ;;
  set_stack (Py.slice_to l (- count)) ;;
  ret new_stack.

End Field.

(** ** class Action and its subclasses *)

Module Place.

Record t : Set := mk { piece : ref; x : Z; y : Z }.

(** [Place(x, y, color, piece_type)] creates its piece. *)
Definition init (x y : Z) (color piece_type : string) : M Piece.store t :=
  p <- Piece.init color piece_type ;;
  ret (mk p x y).

End Place.

Module Move.

Definition UP : string := "up".
Definition LEFT : string := "left".
Definition RIGHT : string := "right".
Definition DOWN : string := "down".

Definition DIRECTION_DICT : gmap string (Z * Z) :=
  list_to_map [(UP, (0, 1)); (DOWN, (0, -1)); (LEFT, (-1, 0)); (RIGHT, (1, 0))].

Record t : Set :=
  mk { x : Z; y : Z; move_list : list Z; direction : string }.

Definition init (x y : Z) (move_list : list Z) (direction : string) : result t :=
  if negb ((x >=? 0) && (y >=? 0)) then Raise (AssertionError MoveCoordinates)
  else if negb (Py.str_in direction [UP; DOWN; LEFT; RIGHT])
  then Raise (AssertionError MoveDirection)
  else match Py.min move_list with
       | Raise e => Raise e
       | Ok m =>
           if negb (m >=? 0) then Raise (AssertionError MoveListNonNeg)
           else Ok (mk x y move_list direction)
       end.

Definition height (self : t) : Z := Py.sum (move_list self).

Definition direction_vector (self : t) : result (Z * Z) :=
  match DIRECTION_DICT !! direction self with
  | Some v => Ok v
  | None => Raise KeyError
  end.

End Move.

(** [isinstance] distinguishes the two subclasses from any other
    [Action]. *)
Inductive Action : Set :=
| APlace (a : Place.t)
| AMove (a : Move.t)
| AOther.

(** ** class Board *)

Module Board.

Record t : Set := mk { _size : Z; _fields : list (list Field.t) }.

(** The whole state: the pieces and the board. *)
Record world : Type := World { heap : Piece.store; board : t }.

(** [Board(size)] *)
Definition init (size : Z) : t :=
  let n := Z.to_nat size in
  mk size (replicate n (replicate n Field.init)).

(** The [Field] object found at [self._fields[x][y]], named by its
    position in the grid. *)
Definition cell : Set := nat * nat.

Definition fields_at (c : cell) (b : t) : option Field.t :=
  match _fields b !! c.1 with
  | Some row => row !! c.2
  | None => None
  end.

Definition put_field (c : cell) (f : Field.t) (b : t) : t :=
  mk (_size b)
     (<[c.1 := <[c.2 := f]> (default [] (_fields b !! c.1))]> (_fields b)).

Definition field (x y : Z) : M world cell :=
  size <- gets (fun w => _size (board w)) ;;
  assert_ FieldBounds
    (((0 <=? x) && (x <? size)) && ((0 <=? y) && (y <? size))) ;;
  fs <- gets (fun w => _fields (board w)) ;;
  row <- lift (Py.index fs x) ;;
  _ <- lift (Py.index row y) ;;
  ret (Z.to_nat x, Z.to_nat y).

(** Call a method of the [Field] object at [c]. *)
Definition on_field {A} (c : cell) (m : M Field.state A) : M world A :=
  fun w =>
    match fields_at c (board w) with
    | Some f =>
        let '(r, (h', f')) := m (heap w, f) in
        (r, World h' (put_field c f' (board w)))
    | None => (Raise IndexError, w)
    end.

(** The loop of [apply] over [action.move_list]. *)
Fixpoint drop_walk (move_list : list Z) (stack : list ref)
    (x y dx dy : Z) : M world unit :=
  match move_list with
  | [] => ret tt
  | i :: rest =>
      c <- field x y ;;
      on_field c (Field.add_stack (Py.slice_to stack i)) ;;
      drop_walk rest (Py.slice_from stack i) (x + dx) (y + dy) dx dy
  end.

(** The [Move] branch of [apply] after its first assertion. *)
Definition carry (action : Move.t) : M world unit :=
  c <- field (Move.x action) (Move.y action) ;;
  stack <- on_field c (Field.take_stones (Move.height action)) ;;
  let x := Move.x action in
  let y := Move.y action in
  d <- lift (Move.direction_vector action) ;;
  let '(dx, dy) := d in
  drop_walk (Move.move_list action) stack x y dx dy.

Definition apply (action : Action) : M world unit :=
  match action with
  | APlace a =>
      c <- field (Place.x a) (Place.y a) ;;
      e <- on_field c Field.empty ;;
      assert_ PlaceOnEmpty e ;;
      c <- field (Place.x a) (Place.y a) ;;
      on_field c (Field.add_stone (Place.piece a))
  | AMove a =>
      size <- gets (fun w => _size (board w)) ;;
      assert_ CarryLimit (Move.height a <=? size) ;;
      carry a
  | AOther => raise TypeError
  end.

(** [full]: the comprehension reads every cell, then [any]. *)
Fixpoint for_each {S A B} (f : A -> M S B) (l : list A) : M S (list B) :=
  match l with
  | [] => ret []
  | a :: l' =>
      b <- f a ;;
      bs <- for_each f l' ;;
      ret (b :: bs)
  end.

Definition full : M world bool :=
  size <- gets (fun w => _size (board w)) ;;
  let range := map Z.of_nat (seq 0 (Z.to_nat size)) in
  es <- for_each (fun xy : Z * Z =>
                    c <- field xy.1 xy.2 ;;
                    on_field c Field.empty)
                 (list_prod range range) ;;
  ret (negb (existsb id es)).

End Board.

(** ** Observations on boards *)

Module Observe.

(** The stack of the cell at [c], bottom first. *)
Definition stack_at (c : Board.cell) (b : Board.t) : list ref :=
  match Board.fields_at c b with
  | Some f => Field._stack f
  | None => []
  end.

(** The number of pieces on the cells listed in [cs]. *)
Definition pieces_on (cs : list Board.cell) (b : Board.t) : nat :=
  sum_list (map (fun c => length (stack_at c b)) cs).

(** The number of pieces on the whole board. *)
Definition count_pieces (b : Board.t) : nat :=
  sum_list (map (fun row => sum_list (map (fun f => length (Field._stack f)) row))
                (Board._fields b)).

End Observe.

(** ** Positions used by the scenarios of the specification *)

Module Scenario.

Definition white_flat : Piece.t := Piece.mk WHITE FLAT.
Definition black_flat : Piece.t := Piece.mk BLACK FLAT.
Definition white_wall : Piece.t := Piece.mk WHITE WALL.
Definition black_wall : Piece.t := Piece.mk BLACK WALL.
Definition white_cap : Piece.t := Piece.mk WHITE CAP.
Definition black_cap : Piece.t := Piece.mk BLACK CAP.

Definition origin : Board.cell := (0%nat, 0%nat).
Definition right1 : Board.cell := (1%nat, 0%nat).
Definition right2 : Board.cell := (2%nat, 0%nat).

(** Scenario C: a 4x4 board whose cell (0,0) holds four flat stones. *)
Definition four_flats : Piece.store :=
  list_to_map [(1%positive, white_flat); (2%positive, black_flat);
               (3%positive, white_flat); (4%positive, black_flat)].
Definition board_C : Board.t :=
  Board.put_field origin (Field.mk [1; 2; 3; 4]%positive) (Board.init 4).
Definition world_C : Board.world := Board.World four_flats board_C.
Definition move_C : Move.t := Move.mk 0 0 [2; 2] Move.RIGHT.

(** What [apply] leaves of scenario C. *)
Definition board_C_after : Board.t :=
  Board.put_field right1 (Field.mk [3; 4]%positive)
    (Board.put_field origin (Field.mk [1; 2]%positive) (Board.init 4)).

(** A move of height 0 and a move of height 5. *)
Definition move_zero : Move.t := Move.mk 0 0 [0] Move.RIGHT.
Definition move_five : Move.t := Move.mk 0 0 [5] Move.RIGHT.

(** Two neighbouring occupied cells on a 3x3 board, and a move that
    drops its only piece first and then visits the neighbour with
    nothing to drop. *)
Definition two_flats : Piece.store :=
  list_to_map [(1%positive, white_flat); (2%positive, black_flat)].
Definition board_pass : Board.t :=
  Board.put_field right1 (Field.mk [2%positive])
    (Board.put_field origin (Field.mk [1%positive]) (Board.init 3)).
Definition world_pass : Board.world := Board.World two_flats board_pass.
Definition move_pass : Move.t := Move.mk 0 0 [1; 0] Move.RIGHT.

(** A row of a 3x3 board ending in a wall: two flats at (0,0), a flat
    at (1,0) and a wall at (2,0). *)
Definition row_pieces : Piece.store :=
  list_to_map [(1%positive, white_flat); (2%positive, black_flat);
               (3%positive, white_flat); (4%positive, black_wall)].
Definition board_row : Board.t :=
  Board.put_field right2 (Field.mk [4%positive])
    (Board.put_field right1 (Field.mk [3%positive])
       (Board.put_field origin (Field.mk [1; 2]%positive) (Board.init 3))).
Definition world_row : Board.world := Board.World row_pieces board_row.
Definition move_row : Move.t := Move.mk 0 0 [0; 1; 1] Move.RIGHT.
Definition board_row_after : Board.t :=
  Board.put_field right1 (Field.mk [3; 1]%positive)
    (Board.put_field origin (Field.mk []) board_row).

(** Scenario B: a cell holding [White/Flat, White/Wall] and an
    incoming Black/Cap; a fourth piece, White/Flat, for longer
    sub-stacks. *)
Definition pieces_B : Piece.store :=
  list_to_map [(1%positive, white_flat); (2%positive, white_wall);
               (3%positive, black_cap); (4%positive, white_flat)].
Definition cell_B : Field.t := Field.mk [1; 2]%positive.

(** A cell topped by a capstone and a second capstone. *)
Definition two_caps : Piece.store :=
  list_to_map [(1%positive, black_cap); (2%positive, white_cap)].
Definition cell_cap : Field.t := Field.mk [1%positive].

End Scenario.

(** ** The stacking rule as a predicate *)

Module Stacking.

(** The piece at [r] is a flat stone. *)
Definition is_flat (h : Piece.store) (r : ref) : bool :=
  match h !! r with
  | Some p => String.eqb (Piece.type p) FLAT
  | None => false
  end.

(** Every piece below the top of the stack is a flat stone. *)
Definition flat_below_top (h : Piece.store) (l : list ref) : bool :=
  forallb (is_flat h) (removelast l).

(** The same for every cell of a board. *)
Definition board_ok (h : Piece.store) (b : Board.t) : bool :=
  forallb (forallb (fun f => flat_below_top h (Field._stack f)))
          (Board._fields b).

(** Flat stones of [h] are flat stones of [h']. *)
Definition flat_kept (h h' : Piece.store) : Prop :=
  forall r, is_flat h r = true -> is_flat h' r = true.

End Stacking.

(** ** The line of a move *)

Module Line.

(** The dimensions of a board: its size and the lengths of its rows. *)
Definition dims (b : Board.t) : Z * list nat :=
  (Board._size b, map length (Board._fields b)).

(** The cell where the cursor of [apply] stands after [k] steps from
    [(x, y)]. *)
Definition cursor (x y dx dy : Z) (k : nat) : Board.cell :=
  (Z.to_nat (x + Z.of_nat k * dx), Z.to_nat (y + Z.of_nat k * dy)).

End Line.

(** ** class Player and its subclasses *)

Module Player.

(** The class of a player object decides its [request_action]. *)
Inductive class : Set := PlayerClass | HumanClass | BotClass.

(** [color] is [None] until [assign_color]. *)
Record t : Set := mk { cls : class; name : string; color : option string }.

(** The store of player objects. *)
Abbreviation store := (gmap positive t).

(** [Player()], [Human(name)] and [Bot()]. *)
Definition init : t := mk PlayerClass "" None.
Definition human (name : string) : t := mk HumanClass name None.
Definition bot : t := mk BotClass "" None.

Definition deref (self : ref) : M store t :=
  fun s => match s !! self with
           | Some p => (Ok p, s)
           | None => (Raise NoSuchObject, s)
           end.

Definition assign_color (self : ref) (color : string) : M store unit :=
  p <- deref self ;;
  modify (fun s : store => <[self := mk (cls p) (name p) (Some color)]> s).

End Player.

(** ** class Game *)

Module Game.

(** [next_action] has an assertion of its own besides the exceptions of
    the classes it calls. *)
Inductive failure : Set :=
| Raised (e : exn)
| PiecesLeft. (* assert self._pieces_left[self.current_player][stone_type] > 0 *)

Inductive outcome (A : Type) : Type :=
| Done (a : A)
| Failed (f : failure).
Arguments Done {A} a.
Arguments Failed {A} f.

Definition G (S A : Type) : Type := S -> outcome A * S.

Definition done {S A} (a : A) : G S A := fun s => (Done a, s).
Definition fail {S A} (f : failure) : G S A := fun s => (Failed f, s).
Definition then_ {S A B} (m : G S A) (k : A -> G S B) : G S B :=
  fun s => match m s with
           | (Done a, s') => k a s'
           | (Failed f, s') => (Failed f, s')
           end.

(** A computation of the classes above, run on a part of the state. *)
Definition call {S T A} (get : S -> T) (set : T -> S -> S) (m : M T A) : G S A :=
  fun s => match m (get s) with
           | (Ok a, t') => (Done a, set t' s)
           | (Raise e, t') => (Failed (Raised e), set t' s)
           end.

Declare Scope game_scope.
Delimit Scope game_scope with game.
Notation "x <- c1 ;; c2" := (then_ c1 (fun x => c2))
  (at level 100, c1 at next level, right associativity) : game_scope.
Notation "c1 ;; c2" := (then_ c1 (fun _ => c2))
  (at level 100, right associativity) : game_scope.
Local Open Scope game_scope.

(** A [dict(flatstones=..., capstones=...)] object. *)
Abbreviation supply := (gmap string Z).

Definition FLATSTONES : string := "flatstones".
Definition CAPSTONES : string := "capstones".

Definition new_supply (flatstones capstones : Z) : supply :=
  <[CAPSTONES := capstones]> (<[FLATSTONES := flatstones]> ∅).

(** Everything a game reaches besides its own object: the pieces, the
    players, the [dict] objects of the rules table, the table
    [Game.RULES] itself, which maps a size to one of these objects, and
    what has been printed. *)
Record env : Type :=
  Env { pieces : Piece.store;
        people : Player.store;
        supplies : gmap positive supply;
        rules : gmap Z ref;
        stdout : list string }.

(** The class attribute [RULES] when the class is created: six [dict]
    objects, here at the references 1 to 6. *)
Definition RULES_supplies : gmap positive supply :=
  list_to_map [(1%positive, new_supply 10 0); (2%positive, new_supply 15 0);
               (3%positive, new_supply 21 1); (4%positive, new_supply 30 1);
               (5%positive, new_supply 40 2); (6%positive, new_supply 50 2)].
Definition RULES : gmap Z ref :=
  list_to_map [(3, 1%positive); (4, 2%positive); (5, 3%positive);
               (6, 4%positive); (7, 5%positive); (8, 6%positive)].

Record t : Type :=
  mk { starting_color : string;
       current_player : ref;
       players : list ref;
       _size : Z;
       _board : Board.t;
       _pieces_left : gmap positive ref }.

(** [Game.RULES[size]] *)
Definition rules_at (size : Z) : G env ref :=
  fun e => match rules e !! size with
           | Some r => (Done r, e)
           | None => (Failed (Raised KeyError), e)
           end.

Definition on_people {A} (m : M Player.store A) : G env A :=
  call people (fun s e => Env (pieces e) s (supplies e) (rules e) (stdout e)) m.

(** [Game(size, player1, player2, starting_color)] *)
Definition init (size : Z) (player1 player2 : ref) (starting_color : string)
  : G env t :=
  on_people (Player.assign_color player1 starting_color) ;;
  on_people (Player.assign_color player2
               (if String.eqb starting_color WHITE then BLACK else WHITE)) ;;
  let board := Board.init size in
  r1 <- rules_at size ;;
  r2 <- rules_at size ;;
  done (mk starting_color player1 [player1; player2] size board
          (<[player2 := r2]> (<[player1 := r1]> ∅))).

(** A method of [Game] sees the environment and its own object. *)
Definition state : Type := env * t.

Definition self_ {A} (f : t -> A) : G state A := fun s => (Done (f s.2), s).

(** What is written to the console, one entry for each write. *)
Definition write (text : string) : G state unit :=
  fun s => (Done tt, (Env (pieces s.1) (people s.1) (supplies s.1) (rules s.1)
                          (stdout s.1 ++ [text]), s.2)).

Definition newline : string := String (Ascii.ascii_of_nat 10) EmptyString.

(** [print(line)] *)
Definition print (line : string) : G state unit := write (line ++ newline).

(** [self._board.apply(action)] *)
Definition board_apply (action : Action) : G state unit :=
  call (fun s : state => Board.World (pieces s.1) (_board s.2))
       (fun w s =>
          (Env (Board.heap w) (people s.1) (supplies s.1) (rules s.1) (stdout s.1),
           mk (starting_color s.2) (current_player s.2) (players s.2) (_size s.2)
              (Board.board w) (_pieces_left s.2)))
       (Board.apply action).

(** [d[key]] on the [dict] object at [d]. *)
Definition supply_get (d : ref) (key : string) : G state Z :=
  fun s => match supplies s.1 !! d with
           | Some o => match o !! key with
                       | Some n => (Done n, s)
                       | None => (Failed (Raised KeyError), s)
                       end
           | None => (Failed (Raised NoSuchObject), s)
           end.

(** [d[key] = n] on the [dict] object at [d]. *)
Definition supply_set (d : ref) (key : string) (n : Z) : G state unit :=
  fun s => match supplies s.1 !! d with
           | Some o =>
               (Done tt,
                (Env (pieces s.1) (people s.1) (<[d := <[key := n]> o]> (supplies s.1))
                     (rules s.1) (stdout s.1), s.2))
           | None => (Failed (Raised NoSuchObject), s)
           end.

(** [self._pieces_left[player]] *)
Definition pieces_left_of (player : ref) : G state ref :=
  fun s => match _pieces_left s.2 !! player with
           | Some d => (Done d, s)
           | None => (Failed (Raised KeyError), s)
           end.

Definition switch_players : G state unit :=
  ps <- self_ players ;;
  cur <- self_ current_player ;;
  p0 <- call (fun s => s) (fun _ s => s) (lift (Py.index ps 0)) ;;
  next <- (if Pos.eqb cur p0
           then call (fun s => s) (fun _ s => s) (lift (Py.index ps 1))
           else call (fun s => s) (fun _ s => s) (lift (Py.index ps 0))) ;;
  fun s => (Done tt,
            (s.1, mk (starting_color s.2) next (players s.2) (_size s.2)
                     (_board s.2) (_pieces_left s.2))).

(** [is_game_over] is [pass]: it returns [None]. *)
Definition is_game_over : G state bool := done false.

(** [evaluate_game] is [pass]. *)
Definition evaluate_game : G state unit := done tt.

(** [next_action].  The method [request_action] of the current player
    is an argument: it is looked up on the class of the player, and
    that of [Human] reads the console. *)
Definition next_action (request_action : ref -> G state Action) : G state unit :=
  cur <- self_ current_player ;;
  p <- call (fun s : state => people s.1) (fun _ s => s) (Player.deref cur) ;;
  print ("Player '" ++ Player.name p ++ "', please choose your next action.") ;;
  cur <- self_ current_player ;;
  action <- request_action cur ;;
  board_apply action ;;
  match action with
  | APlace a =>
      c <- call (fun s : state => pieces s.1) (fun _ s => s)
             (Piece.is_capstone (Place.piece a)) ;;
      let stone_type := if c then CAPSTONES else FLATSTONES in
      cur <- self_ current_player ;;
      d <- pieces_left_of cur ;;
      n <- supply_get d stone_type ;;
      (if n >? 0 then done tt else fail PiecesLeft) ;;
      cur <- self_ current_player ;;
      d <- pieces_left_of cur ;;
      n <- supply_get d stone_type ;;
      supply_set d stone_type (n - 1)
  | _ => done tt
  end ;;
  over <- is_game_over ;;
  if over then evaluate_game else switch_players.

(** The three methods [request_action] of the file.  [Player]'s raises
    [TypeError]; [Bot]'s is [pass] and returns [None], which is not an
    [Action]; [Human]'s writes its two prompts, reads two integers,
    [column] and [row] being the outcomes of the two calls
    [int(input(...))], and builds a [Place] of a flat stone of the
    player's colour. *)
Definition request_action_of (column row : result Z) (player : ref)
  : G state Action :=
  p <- call (fun s : state => people s.1) (fun _ s => s) (Player.deref player) ;;
  match Player.cls p with
  | Player.PlayerClass => fail (Raised TypeError)
  | Player.BotClass => done AOther
  | Player.HumanClass =>
      write "input a column" ;;
      x <- call (fun s => s) (fun _ s => s) (lift column) ;;
      write "input a row" ;;
      y <- call (fun s => s) (fun _ s => s) (lift row) ;;
      p <- call (fun s : state => people s.1) (fun _ s => s) (Player.deref player) ;;
      match Player.color p with
      | Some c =>
          a <- call (fun s : state => pieces s.1)
                 (fun h s => (Env h (people s.1) (supplies s.1) (rules s.1)
                                  (stdout s.1), s.2))
                 (Place.init x y c FLAT) ;;
          done (APlace a)
      | None => fail (Raised (AssertionError PieceColor))
      end
  end.

(** The environment and the game once the console has received [out]
    and the call of [apply] has left [w]. *)
Definition after_board (e : env) (g : t) (out : list string)
    (w : Board.world) : state :=
  (Env (Board.heap w) (people e) (supplies e) (rules e) (stdout e ++ out),
   mk (starting_color g) (current_player g) (players g) (_size g)
      (Board.board w) (_pieces_left g)).

(** The line [next_action] prints for the player [p]. *)
Definition prompt (p : Player.t) : string :=
  ("Player '" ++ Player.name p ++ "', please choose your next action.")
    ++ newline.

(** A new game of size 3 between two [Human] players, before
    [Game(...)] is called. *)
Definition two_humans : env :=
  Env ∅ (<[2%positive := Player.human "bo"]> (<[1%positive := Player.human "al"]> ∅))
      RULES_supplies RULES [].

(** The same environment once [Game(3, al, bo, WHITE)] has coloured the
    players, and the game it returns. *)
Definition two_humans_coloured : env :=
  Env ∅
      (<[2%positive := Player.mk Player.HumanClass "bo" (Some BLACK)]>
         (<[1%positive := Player.mk Player.HumanClass "al" (Some WHITE)]> ∅))
      RULES_supplies RULES [].
Definition new_game : t :=
  mk WHITE 1%positive [1; 2]%positive 3 (Board.init 3)
     (<[2%positive := 1%positive]> (<[1%positive := 1%positive]> ∅)).

(** The state after the first player has typed 0 and 0. *)
Definition first_turn_out : list string :=
  [prompt (Player.human "al"); "input a column"; "input a row"]%string.
Definition after_first_turn : state :=
  (Env (<[1%positive := Piece.mk WHITE FLAT]> ∅)
       (people two_humans_coloured)
       (<[1%positive := <[FLATSTONES := 9]> (new_supply 10 0)]> RULES_supplies)
       RULES first_turn_out,
   mk WHITE 2%positive [1; 2]%positive 3
      (Board.put_field (0%nat, 0%nat) (Field.mk [1%positive]) (Board.init 3))
      (_pieces_left new_game)).

(** The first player about to move with a supply of no flat stone. *)
Definition no_supply : env :=
  Env ∅ (people two_humans_coloured)
      (<[1%positive := new_supply 0 0]> RULES_supplies) RULES [].

End Game.

(** * Properties *)

Import Observe.

(** Unfolding of the method bodies down to the state function. *)
Ltac run :=
  unfold Field.take_stones, Field.add_stack, Field.add_stone, Field.top,
    Field.empty, Field.height, Field.controlled_by, Field.stack_,
    Field.set_stack, Field.pieces, Piece.flatten, Piece.set_type,
    Piece.is_capstone, Piece.deref, zoom, assert_, bind, gets, modify,
    lift, ret, raise; cbn [fst snd Field._stack].

(** ** Slices *)

Section Slices.
Context {A : Type}.
Implicit Types (l : list A) (i count : Z).

Lemma slice_from_neg l count :
  1 <= count <= Z.of_nat (length l) ->
  Py.slice_from l (- count) = drop (length l - Z.to_nat count)%nat l.
Proof.
  intros H. unfold Py.slice_from, Py.slice_bound.
  destruct (Z.ltb_spec (- count) 0); [|lia].
  f_equal. lia.
Qed.

Lemma slice_to_neg l count :
  1 <= count <= Z.of_nat (length l) ->
  Py.slice_to l (- count) = take (length l - Z.to_nat count)%nat l.
Proof.
  intros H. unfold Py.slice_to, Py.slice_bound.
  destruct (Z.ltb_spec (- count) 0); [|lia].
  f_equal. lia.
Qed.

(** [l[-0:]] is the whole list and [l[:-0]] is empty. *)
Lemma slice_from_neg_zero l : Py.slice_from l (- 0) = l.
Proof.
  unfold Py.slice_from, Py.slice_bound. cbn.
  rewrite Z.min_l by lia. reflexivity.
Qed.

Lemma slice_to_neg_zero l : Py.slice_to l (- 0) = [].
Proof.
  unfold Py.slice_to, Py.slice_bound. cbn.
  rewrite Z.min_l by lia. reflexivity.
Qed.

Lemma slice_to_nonneg l i :
  0 <= i -> Py.slice_to l i = take (Z.to_nat i) l.
Proof.
  intros H. unfold Py.slice_to, Py.slice_bound.
  destruct (Z.ltb_spec i 0); [lia|].
  destruct (Z.le_gt_cases i (Z.of_nat (length l))).
  - rewrite Z.min_l by lia. reflexivity.
  - rewrite Z.min_r by lia. rewrite Nat2Z.id.
    rewrite !take_ge by lia. reflexivity.
Qed.

Lemma slice_from_nonneg l i :
  0 <= i -> Py.slice_from l i = drop (Z.to_nat i) l.
Proof.
  intros H. unfold Py.slice_from, Py.slice_bound.
  destruct (Z.ltb_spec i 0); [lia|].
  destruct (Z.le_gt_cases i (Z.of_nat (length l))).
  - rewrite Z.min_l by lia. reflexivity.
  - rewrite Z.min_r by lia. rewrite Nat2Z.id.
    rewrite !drop_ge by lia. reflexivity.
Qed.

Lemma index_last l (a : A) : Py.index (l ++ [a]) (-1) = Ok a.
Proof.
  unfold Py.index. rewrite length_app. cbn [length].
  destruct (Z.ltb_spec (-1) 0); [|lia].
  destruct (Z.ltb_spec (Z.of_nat (length l + 1) + -1) 0); [lia|].
  destruct (Z.leb_spec (Z.of_nat (length l + 1)) (Z.of_nat (length l + 1) + -1)); [lia|].
  cbn [orb].
  replace (Z.to_nat (Z.of_nat (length l + 1) + -1)) with (length l + 0)%nat by lia.
  rewrite lookup_app_r by lia.
  replace (length l + 0 - length l)%nat with 0%nat by lia. reflexivity.
Qed.

Lemma index_first (a : A) l : Py.index (a :: l) 0 = Ok a.
Proof.
  unfold Py.index. cbn [length].
  destruct (Z.leb_spec (Z.of_nat (S (length l))) 0); [lia|]. reflexivity.
Qed.

End Slices.

(** ** Piece *)

(** [flatten] never raises on an object of the store, whatever its type. *)
Lemma flatten_sets_flat (h : Piece.store) (r : ref) (p : Piece.t) :
  h !! r = Some p ->
  Piece.flatten r h = (Ok tt, <[r := Piece.mk (Piece.color p) FLAT]> h).
Proof. intros H. run. cbn. rewrite H. reflexivity. Qed.

(** ** Field *)

Lemma take_stones_top (h : Piece.store) (l : list ref) (count : Z) :
  1 <= count <= Z.of_nat (length l) ->
  Field.take_stones count (h, Field.mk l)
  = (Ok (drop (length l - Z.to_nat count)%nat l),
     (h, Field.mk (take (length l - Z.to_nat count)%nat l))).
Proof.
  intros H. run.
  destruct (Z.geb_spec (Z.of_nat (length l)) count); [|lia].
  cbn. rewrite slice_from_neg, slice_to_neg by lia. reflexivity.
Qed.

Lemma take_stones_too_many (h : Piece.store) (l : list ref) (count : Z) :
  Z.of_nat (length l) < count ->
  Field.take_stones count (h, Field.mk l)
  = (Raise (AssertionError TakeHeight), (h, Field.mk l)).
Proof.
  intros H. run.
  destruct (Z.geb_spec (Z.of_nat (length l)) count); [lia|]. reflexivity.
Qed.

(** With [count = 0] the two slices are [l[-0:]] and [l[:-0]]. *)
Lemma take_stones_zero (h : Piece.store) (l : list ref) :
  Field.take_stones 0 (h, Field.mk l) = (Ok l, (h, Field.mk [])).
Proof.
  run. destruct (Z.geb_spec (Z.of_nat (length l)) 0); [|lia].
  cbn. rewrite slice_from_neg_zero, slice_to_neg_zero. reflexivity.
Qed.

Lemma add_stack_on_empty (h : Piece.store) (stack : list ref) :
  Field.add_stack stack (h, Field.mk []) = (Ok tt, (h, Field.mk stack)).
Proof. reflexivity. Qed.

Lemma nonempty_not_empty (below : list ref) (r : ref) :
  (Z.of_nat (length (below ++ [r])) =? 0) = false.
Proof. rewrite length_app. cbn. apply Z.eqb_neq. lia. Qed.

(** An empty sub-stack on an occupied cell: [stack[0]] raises. *)
Lemma add_stack_nothing_on_occupied (h : Piece.store) (below : list ref) (r : ref) :
  Field.add_stack [] (h, Field.mk (below ++ [r]))
  = (Raise IndexError, (h, Field.mk (below ++ [r]))).
Proof. run. rewrite nonempty_not_empty. reflexivity. Qed.

(** A sub-stack whose bottom is a capstone, on any occupied cell: the
    top of the cell is set to flat and the sub-stack is appended. *)
Lemma add_stack_capstone_bottom (h : Piece.store) (below : list ref) (r : ref)
    (b : ref) (rest : list ref) (pr pb : Piece.t) :
  h !! r = Some pr ->
  h !! b = Some pb -> Piece.type pb = CAP ->
  Field.add_stack (b :: rest) (h, Field.mk (below ++ [r]))
  = (Ok tt, (<[r := Piece.mk (Piece.color pr) FLAT]> h,
             Field.mk ((below ++ [r]) ++ b :: rest))).
Proof.
  intros Hr Hb Hcap. run. rewrite nonempty_not_empty. cbn [negb].
  rewrite index_first. cbn. rewrite Hb, Hcap. cbn.
  rewrite index_last. cbn. rewrite Hr. cbn.
  rewrite index_last. cbn. rewrite lookup_insert_eq. cbn. reflexivity.
Qed.

(** A sub-stack whose bottom is not a capstone: appended when the top of
    the cell is flat, refused otherwise, the cell left as it was. *)
Lemma add_stack_other_bottom (h : Piece.store) (below : list ref) (r : ref)
    (b : ref) (rest : list ref) (pr pb : Piece.t) :
  h !! r = Some pr ->
  h !! b = Some pb -> Piece.type pb <> CAP ->
  Field.add_stack (b :: rest) (h, Field.mk (below ++ [r]))
  = if String.eqb (Piece.type pr) FLAT
    then (Ok tt, (h, Field.mk ((below ++ [r]) ++ b :: rest)))
    else (Raise (AssertionError PlayOntoFlat), (h, Field.mk (below ++ [r]))).
Proof.
  intros Hr Hb Hcap. run. rewrite nonempty_not_empty. cbn [negb].
  rewrite index_first. cbn. rewrite Hb.
  apply String.eqb_neq in Hcap. rewrite Hcap. cbn.
  rewrite index_last. cbn. rewrite Hr. cbn.
  destruct (String.eqb (Piece.type pr) FLAT); reflexivity.
Qed.

(** ** Board *)

Import Scenario.

(** The first assertion of the [Move] branch. *)
Lemma apply_move_unfold (a : Move.t) (w : Board.world) :
  Board.apply (AMove a) w
  = if Move.height a <=? Board._size (Board.board w)
    then Board.carry a w
    else (Raise (AssertionError CarryLimit), w).
Proof.
  unfold Board.apply, bind, gets, assert_.
  destruct (Move.height a <=? Board._size (Board.board w)); reflexivity.
Qed.

Lemma apply_move_over_limit (a : Move.t) (w : Board.world) :
  Board._size (Board.board w) < Move.height a ->
  Board.apply (AMove a) w = (Raise (AssertionError CarryLimit), w).
Proof.
  intros H. rewrite apply_move_unfold.
  destruct (Z.leb_spec (Move.height a) (Board._size (Board.board w))); [lia|].
  reflexivity.
Qed.

Lemma apply_move_within_limit (a : Move.t) (w : Board.world) :
  Move.height a <= Board._size (Board.board w) ->
  Board.apply (AMove a) w = Board.carry a w.
Proof.
  intros H. rewrite apply_move_unfold.
  destruct (Z.leb_spec (Move.height a) (Board._size (Board.board w))); [|lia].
  reflexivity.
Qed.

(** ** Moves of positive height keep every piece on the board *)

Lemma sum_list_insert {A} (g : A -> nat) (l : list A) (i : nat) (a a' : A) :
  l !! i = Some a ->
  (sum_list (map g (<[i := a']> l)) + g a = sum_list (map g l) + g a')%nat.
Proof.
  revert i. induction l as [|b l IH]; intros [|i] H; try discriminate.
  - injection H as ->. simpl. lia.
  - simpl in *. specialize (IH i H). lia.
Qed.

Lemma count_pieces_put_field (c : Board.cell) (f f' : Field.t) (b : Board.t) :
  Board.fields_at c b = Some f ->
  (count_pieces (Board.put_field c f' b) + length (Field._stack f)
   = count_pieces b + length (Field._stack f'))%nat.
Proof.
  unfold Board.fields_at, count_pieces, Board.put_field.
  destruct (Board._fields b !! c.1) as [row|] eqn:Hrow; [|discriminate].
  intros Hf. cbn [Board._fields default].
  pose proof (sum_list_insert
                (fun row => sum_list (map (fun f => length (Field._stack f)) row))
                (Board._fields b) c.1 row (<[c.2 := f']> row) Hrow) as H1.
  pose proof (sum_list_insert (fun f => length (Field._stack f))
                row c.2 f f' Hf) as H2.
  cbv beta in H1, H2. change (id row) with row. lia.
Qed.

Lemma field_ok (x y : Z) (w w' : Board.world) (c : Board.cell) :
  Board.field x y w = (Ok c, w') -> w' = w.
Proof.
  unfold Board.field, bind, gets, assert_, lift, ret, raise.
  destruct (_ && _); [|discriminate].
  destruct (Py.index _ x) as [row|]; [|discriminate].
  destruct (Py.index row y); [|discriminate].
  intros [= _ <-]. reflexivity.
Qed.

Lemma on_field_ok {A} (c : Board.cell) (m : M Field.state A)
    (w w' : Board.world) (a : A) :
  Board.on_field c m w = (Ok a, w') ->
  exists (f f' : Field.t) (h' : Piece.store),
    Board.fields_at c (Board.board w) = Some f /\
    m (Board.heap w, f) = (Ok a, (h', f')) /\
    w' = Board.World h' (Board.put_field c f' (Board.board w)).
Proof.
  unfold Board.on_field.
  destruct (Board.fields_at c (Board.board w)) as [f|]; [|discriminate].
  destruct (m (Board.heap w, f)) as [r [h' f']] eqn:Hm.
  intros [= -> <-]. exists f, f', h'.
  split; [reflexivity|]. split; [exact Hm|reflexivity].
Qed.

(** A successful [add_stack] appends the sub-stack, in its order. *)
Lemma add_stack_ok (stack : list ref) (st st' : Field.state) :
  Field.add_stack stack st = (Ok tt, st') ->
  Field._stack st'.2 = Field._stack st.2 ++ stack.
Proof.
  destruct st as [h [l]]. run.
  destruct (Z.of_nat (length l) =? 0); cbn.
  - intros [= <-]. reflexivity.
  - destruct (Py.index stack 0) as [b|]; [|discriminate]. cbn.
    destruct (h !! b) as [pb|]; [|discriminate]. cbn.
    destruct (Piece.type pb =? CAP)%string; cbn.
    + destruct (Py.index l (-1)) as [r|] eqn:Htop; [|discriminate]. cbn.
      destruct (h !! r) as [pr|]; [|discriminate]. cbn.
      rewrite Htop. cbn. rewrite lookup_insert_eq. cbn.
      intros [= <-]. reflexivity.
    + destruct (Py.index l (-1)) as [r|]; [|discriminate]. cbn.
      destruct (h !! r) as [pr|]; [|discriminate]. cbn.
      destruct (Piece.type pr =? FLAT)%string; [|discriminate].
      intros [= <-]. reflexivity.
Qed.

Lemma take_stones_ok (count : Z) (st st' : Field.state) (taken : list ref) :
  1 <= count ->
  Field.take_stones count st = (Ok taken, st') ->
  length taken = Z.to_nat count /\
  (length (Field._stack st'.2) + length taken = length (Field._stack st.2))%nat.
Proof.
  destruct st as [h [l]]. intros Hpos.
  destruct (Z.le_gt_cases count (Z.of_nat (length l))) as [Hle|Hgt].
  - rewrite take_stones_top by lia. intros [= <- <-]. cbn.
    rewrite length_drop, length_take. lia.
  - rewrite take_stones_too_many by lia. discriminate.
Qed.

Lemma sum_from (l : list Z) (acc : Z) :
  fold_left Z.add l acc = acc + Py.sum l.
Proof.
  unfold Py.sum. revert acc.
  induction l as [|j l IH]; intros acc; cbn [fold_left]; [lia|].
  rewrite (IH (acc + j)), (IH (0 + j)). lia.
Qed.

Lemma sum_cons (i : Z) (l : list Z) : Py.sum (i :: l) = i + Py.sum l.
Proof. unfold Py.sum at 1. cbn [fold_left]. rewrite sum_from. lia. Qed.

Lemma sum_nonneg (l : list Z) : Forall (fun i => 0 <= i) l -> 0 <= Py.sum l.
Proof.
  induction 1 as [|i l Hi _ IH]; [reflexivity|]. rewrite sum_cons. lia.
Qed.

Lemma min_nonneg (l : list Z) (m : Z) :
  Py.min l = Ok m -> 0 <= m -> Forall (fun i => 0 <= i) l.
Proof.
  destruct l as [|a l]; [discriminate|]. cbn. intros [= <-].
  revert a. induction l as [|b l IH]; intros a H; cbn in *.
  - constructor; [lia|constructor].
  - specialize (IH _ H). inversion IH as [|? ? Hab Hl]; subst.
    constructor; [lia|]. constructor; [lia|exact Hl].
Qed.

(** The walk puts every carried piece on the board when the entries are
    non-negative and add up to the number of carried pieces. *)
Lemma drop_walk_conserves (move_list : list Z) :
  forall (stack : list ref) (x y dx dy : Z) (w w' : Board.world),
    Forall (fun i => 0 <= i) move_list ->
    Py.sum move_list = Z.of_nat (length stack) ->
    Board.drop_walk move_list stack x y dx dy w = (Ok tt, w') ->
    count_pieces (Board.board w')
    = (count_pieces (Board.board w) + length stack)%nat.
Proof.
  induction move_list as [|i rest IH]; intros stack x y dx dy w w' Hnn Hsum.
  - cbn. intros [= <-]. change (Py.sum []) with 0 in Hsum. lia.
  - inversion Hnn as [|? ? Hi Hrest]; subst.
    rewrite sum_cons in Hsum. pose proof (sum_nonneg rest Hrest) as Hr.
    cbn [Board.drop_walk]. unfold bind at 1.
    destruct (Board.field x y w) as [[c|e] w1] eqn:Hfield; [|discriminate].
    apply field_ok in Hfield as ->.
    unfold bind at 1.
    destruct (Board.on_field c _ w) as [[[]|e] w2] eqn:Hon; [|discriminate].
    apply on_field_ok in Hon as (f & f' & h' & Hf & Hadd & ->).
    apply add_stack_ok in Hadd. cbn in Hadd.
    intros Hwalk. apply IH in Hwalk; [|exact Hrest|].
    + rewrite Hwalk. cbn [Board.board].
      pose proof (count_pieces_put_field c f f' (Board.board w) Hf) as Hput.
      rewrite Hadd, length_app in Hput.
      rewrite slice_to_nonneg in Hput by lia.
      rewrite slice_from_nonneg by lia.
      rewrite length_take in Hput. rewrite length_drop. lia.
    + rewrite slice_from_nonneg by lia. rewrite length_drop. lia.
Qed.

(** X30. A constructed move of height at least 1 that [apply] accepts
    leaves as many pieces on the board as it found. *)
Lemma apply_move_conserves_pieces (x y : Z) (move_list : list Z)
    (direction : string) (a : Move.t) (w w' : Board.world) :
  Move.init x y move_list direction = Ok a ->
  1 <= Move.height a ->
  Board.apply (AMove a) w = (Ok tt, w') ->
  count_pieces (Board.board w') = count_pieces (Board.board w).
Proof.
  intros Hinit Hheight. rewrite apply_move_unfold.
  destruct (Move.height a <=? _); [|discriminate].
  assert (Hnn : Forall (fun i => 0 <= i) (Move.move_list a)).
  { revert Hinit. unfold Move.init.
    destruct (negb (_ && _)); [discriminate|].
    destruct (negb (Py.str_in _ _)); [discriminate|].
    destruct (Py.min move_list) as [m|] eqn:Hmin; [|discriminate].
    destruct (Z.geb_spec m 0); [|discriminate].
    intros [= <-]. cbn. apply (min_nonneg _ m Hmin). lia. }
  unfold Board.carry. unfold bind at 1.
  destruct (Board.field _ _ w) as [[c|e] w1] eqn:Hfield; [|discriminate].
  apply field_ok in Hfield as ->.
  unfold bind at 1.
  destruct (Board.on_field c _ w) as [[stack|e] w2] eqn:Hon; [|discriminate].
  apply on_field_ok in Hon as (f & f' & h' & Hf & Htake & ->).
  apply take_stones_ok in Htake as [Hlen Htotal]; [|exact Hheight]. cbn in Htotal.
  unfold bind at 1, lift at 1.
  destruct (Move.direction_vector a) as [[dx dy]|]; [|discriminate].
  intros Hwalk. apply drop_walk_conserves in Hwalk; [|exact Hnn|unfold Move.height in *; lia].
  rewrite Hwalk. cbn [Board.board].
  pose proof (count_pieces_put_field c f f' (Board.board w) Hf). lia.
Qed.

(** * The properties of the specification *)

(** C1. Scenario C on the code: on a 4x4 board whose cell (0,0) holds
    the pieces 1, 2, 3, 4 (bottom first), the move [2, 2] to the right
    is applied without an exception; its first drop lands on the origin
    cell itself, so (0,0) keeps the bottom two pieces, (1,0) receives
    the top two and (2,0) stays empty. *)
Theorem scenario_C_first_drop_lands_on_origin :
  Move.init 0 0 [2; 2] Move.RIGHT = Ok move_C /\
  stack_at origin (Board.board world_C) = [1; 2; 3; 4]%positive /\
  Board.apply (AMove move_C) world_C
  = (Ok tt, Board.World four_flats board_C_after) /\
  stack_at origin board_C_after = [1; 2]%positive /\
  stack_at right1 board_C_after = [3; 4]%positive /\
  stack_at right2 board_C_after = [].
Proof. repeat split; vm_compute; reflexivity. Qed.

(** C2. A move of height 0, which [Move.__init__] accepts, is applied
    without an exception to a board holding four pieces, all on the
    origin cell, the only cell the move touches, and leaves a board
    holding no piece at all. *)
Theorem zero_height_move_loses_the_origin_stack :
  Move.init 0 0 [0] Move.RIGHT = Ok move_zero /\
  Move.height move_zero = Py.sum (Move.move_list move_zero) /\
  pieces_on [origin] (Board.board world_C) = 4%nat /\
  count_pieces (Board.board world_C) = 4%nat /\
  Board.apply (AMove move_zero) world_C
  = (Ok tt, Board.World four_flats (Board.init 4)) /\
  pieces_on [origin] (Board.init 4) = 0%nat /\
  count_pieces (Board.init 4) = 0%nat.
Proof. repeat split; vm_compute; reflexivity. Qed.

(** C3. [flatten] on a capstone returns normally and leaves the piece
    flat. *)
Theorem flatten_capstone_returns_normally :
  Piece.is_capstone 1%positive two_caps = (Ok true, two_caps) /\
  Piece.flatten 1%positive two_caps
  = (Ok tt, <[1%positive := black_flat]> two_caps).
Proof. split; vm_compute; reflexivity. Qed.

(** C4. [add_stack] of a single capstone onto a cell whose top is a
    capstone returns normally: the capstone of the cell is set to flat
    and the incoming capstone is put on it. *)
Theorem add_stack_capstone_onto_capstone_returns_normally :
  Field.top (two_caps, cell_cap) = (Ok 1%positive, (two_caps, cell_cap)) /\
  Piece.is_capstone 1%positive two_caps = (Ok true, two_caps) /\
  Piece.is_capstone 2%positive two_caps = (Ok true, two_caps) /\
  Field.add_stack [2%positive] (two_caps, cell_cap)
  = (Ok tt, (<[1%positive := black_flat]> two_caps,
             Field.mk [1; 2]%positive)).
Proof. repeat split; vm_compute; reflexivity. Qed.

(** C5. [take_stones(0)] on a stack of two pieces returns both pieces
    and leaves the stack empty. *)
Theorem take_stones_zero_empties_the_stack :
  Field.take_stones 0 (two_flats, Field.mk [1; 2]%positive)
  = (Ok [1; 2]%positive, (two_flats, Field.mk [])).
Proof. vm_compute; reflexivity. Qed.

(** C6. There are a board and a move, accepted by [Move.__init__], on
    which [apply] raises during the walk, in [add_stack] on the third
    visited cell; the board it leaves has the origin cell emptied and
    the cell (1,0) one piece higher than before. *)
Theorem failed_move_leaves_board_half_applied :
  exists (w w' : Board.world) (a : Move.t) (d : Board.cell),
    Move.init (Move.x a) (Move.y a) (Move.move_list a) (Move.direction a) = Ok a /\
    Board.apply (AMove a) w = (Raise (AssertionError PlayOntoFlat), w') /\
    stack_at (Z.to_nat (Move.x a), Z.to_nat (Move.y a)) (Board.board w) <> [] /\
    stack_at (Z.to_nat (Move.x a), Z.to_nat (Move.y a)) (Board.board w') = [] /\
    d <> (Z.to_nat (Move.x a), Z.to_nat (Move.y a)) /\
    stack_at d (Board.board w') <> stack_at d (Board.board w) /\
    w' <> w.
Proof.
  exists world_row, (Board.World row_pieces board_row_after), move_row, right1.
  repeat split; try (vm_compute; reflexivity); vm_compute; discriminate.
Qed.

(** C7. For every non-empty incoming sub-stack whose bottom piece is a
    capstone, the sub-stack being a stack of the game (every piece
    below its top is flat), [add_stack] onto a cell whose top is a Wall
    returns normally: that Wall is set to Flat, keeping its colour, and
    the incoming pieces are appended in their order; afterwards the top
    of the cell is the capstone, still a capstone, and the height of
    the cell has grown by the incoming count. *)
Theorem add_stack_capstone_onto_wall (h : Piece.store) (below : list ref)
    (w b : ref) (rest : list ref) (pw pb : Piece.t) :
  h !! w = Some pw -> Piece.type pw = WALL ->
  h !! b = Some pb -> Piece.type pb = CAP ->
  Stacking.flat_below_top h (b :: rest) = true ->
  let h' := <[w := Piece.mk (Piece.color pw) FLAT]> h in
  let st' := (h', Field.mk ((below ++ [w]) ++ b :: rest)) in
  Field.add_stack (b :: rest) (h, Field.mk (below ++ [w])) = (Ok tt, st') /\
  h' !! w = Some (Piece.mk (Piece.color pw) FLAT) /\
  Field.top st' = (Ok b, st') /\
  Piece.is_capstone b h' = (Ok true, h') /\
  Field.height st'
  = (Ok (Z.of_nat (length (below ++ [w])) + Z.of_nat (length (b :: rest))), st').
Proof.
  intros Hw Hwall Hb Hcap Hrule h' st'.
  assert (Hrest : rest = []).
  { destruct rest as [|r rest']; [reflexivity|].
    unfold Stacking.flat_below_top in Hrule.
    change (removelast (b :: r :: rest')) with (b :: removelast (r :: rest'))
      in Hrule.
    cbn [forallb] in Hrule. apply andb_true_iff in Hrule as [Hflat _].
    unfold Stacking.is_flat in Hflat. rewrite Hb, Hcap in Hflat.
    discriminate Hflat. }
  assert (Hne : w <> b).
  { intros ->. rewrite Hw in Hb. injection Hb as ->.
    rewrite Hwall in Hcap. discriminate. }
  split; [apply (add_stack_capstone_bottom h below w b rest pw pb Hw Hb Hcap)|].
  split; [apply lookup_insert_eq|].
  split.
  { subst st' rest. run. rewrite index_last. reflexivity. }
  split.
  { subst h'. run. rewrite lookup_insert_ne by exact Hne.
    rewrite Hb. cbn. rewrite Hcap. reflexivity. }
  subst st'. run. rewrite length_app. f_equal. f_equal. lia.
Qed.

(** Scenario B: [White/Flat, White/Wall] receiving a single Black/Cap
    ends with the wall flat, top Black/Cap and height 3. *)
Lemma add_stack_capstone_onto_wall_scenario_B :
  let h' := <[2%positive := white_flat]> pieces_B in
  let st' := (h', Field.mk [1; 2; 3]%positive) in
  Field.add_stack [3%positive] (pieces_B, cell_B) = (Ok tt, st') /\
  h' !! 2%positive = Some white_flat /\
  Field.top st' = (Ok 3%positive, st') /\
  Piece.is_capstone 3%positive h' = (Ok true, h') /\
  Field.height st' = (Ok 3, st').
Proof.
  exact (add_stack_capstone_onto_wall pieces_B [1%positive] 2%positive
           3%positive [] white_wall black_cap
           eq_refl eq_refl eq_refl eq_refl eq_refl).
Defined.

(** C8. A move whose second entry is 0 visits the occupied cell (1,0)
    with nothing to drop: [add_stack] reads [stack[0]] of an empty
    list and [apply] raises [IndexError], after the first drop. *)
Theorem zero_drop_over_occupied_cell_raises :
  Move.init 0 0 [1; 0] Move.RIGHT = Ok move_pass /\
  stack_at right1 (Board.board world_pass) = [2%positive] /\
  Board.apply (AMove move_pass) world_pass = (Raise IndexError, world_pass).
Proof. repeat split; vm_compute; reflexivity. Qed.

(** C9. [apply] checks the carry limit before anything else: a move
    whose height is the board size plus one raises the carry-limit
    assertion and leaves the whole state as it was, and for a move whose
    height is the board size the limit is no obstacle: when the rest of
    the branch returns normally, so does [apply], with the same state. *)
Theorem apply_carry_limit_boundary (w : Board.world) (a : Move.t) :
  (Move.height a = Board._size (Board.board w) + 1 ->
   Board.apply (AMove a) w = (Raise (AssertionError CarryLimit), w)) /\
  (Move.height a = Board._size (Board.board w) ->
   forall w' : Board.world,
     Board.carry a w = (Ok tt, w') ->
     Board.apply (AMove a) w = (Ok tt, w')).
Proof.
  split; intros H.
  - apply apply_move_over_limit. lia.
  - intros w' Hcarry. rewrite apply_move_within_limit by lia. exact Hcarry.
Qed.

(** On the 4x4 board of scenario C, a move of height 5 is refused and a
    move of height 4 is applied. *)
Lemma apply_carry_limit_boundary_4x4 :
  Board.apply (AMove move_five) world_C
  = (Raise (AssertionError CarryLimit), world_C) /\
  Board.apply (AMove move_C) world_C
  = (Ok tt, Board.World four_flats board_C_after).
Proof.
  split.
  - apply (proj1 (apply_carry_limit_boundary world_C move_five)).
    vm_compute; reflexivity.
  - apply (proj2 (apply_carry_limit_boundary world_C move_C)).
    + vm_compute; reflexivity.
    + vm_compute; reflexivity.
Defined.

(** C10. [Move.__init__] raises for every empty [move_list]: the
    assertion on the coordinates or on the direction when it fails, and
    otherwise [ValueError] from [min]; hence the [move_list] of every
    constructed move has at least one entry. *)
Theorem move_init_rejects_empty_move_list :
  (forall (x y : Z) (direction : string),
      exists e : exn, Move.init x y [] direction = Raise e) /\
  (forall (x y : Z) (direction : string),
      0 <= x -> 0 <= y ->
      Py.str_in direction [Move.UP; Move.DOWN; Move.LEFT; Move.RIGHT] = true ->
      Move.init x y [] direction = Raise ValueError) /\
  (forall (x y : Z) (move_list : list Z) (direction : string) (a : Move.t),
      Move.init x y move_list direction = Ok a ->
      Move.move_list a = move_list /\ (1 <= length (Move.move_list a))%nat).
Proof.
  split; [|split].
  - intros x y d. unfold Move.init.
    destruct (negb ((x >=? 0) && (y >=? 0))); [eauto|].
    destruct (negb (Py.str_in d [Move.UP; Move.DOWN; Move.LEFT; Move.RIGHT])); eauto.
  - intros x y d Hx Hy Hd. unfold Move.init.
    rewrite Hd.
    destruct (Z.geb_spec x 0); [|lia].
    destruct (Z.geb_spec y 0); [|lia].
    reflexivity.
  - intros x y ml d a. unfold Move.init.
    destruct (negb ((x >=? 0) && (y >=? 0))); [discriminate|].
    destruct (negb (Py.str_in d [Move.UP; Move.DOWN; Move.LEFT; Move.RIGHT]));
      [discriminate|].
    destruct ml as [|i ml']; [discriminate|].
    cbn [Py.min].
    destruct (negb (fold_left Z.min ml' i >=? 0)); [discriminate|].
    intros [= <-]. cbn. split; [reflexivity|lia].
Qed.

(** The move of scenario C is a constructed move; the same call with an
    empty [move_list] raises [ValueError]. *)
Lemma move_init_rejects_empty_move_list_scenario :
  Move.init 0 0 [] Move.RIGHT = Raise ValueError /\
  Move.move_list move_C = [2; 2] /\ (1 <= length (Move.move_list move_C))%nat.
Proof.
  destruct move_init_rejects_empty_move_list as (_ & Hvalue & Hentries).
  split.
  - apply Hvalue; [lia | lia | reflexivity].
  - apply (Hentries 0 0 [2; 2] Move.RIGHT move_C). reflexivity.
Defined.

(** * Further properties of the code *)

(** ** Piece and Field *)

Lemma index_neg1_inv {A} (l : list A) (a : A) :
  Py.index l (-1) = Ok a -> exists below, l = below ++ [a].
Proof.
  destruct l as [|x l'] using rev_ind; [discriminate|].
  rewrite index_last. intros [= ->]. eauto.
Qed.

Lemma index_zero_inv {A} (l : list A) (a : A) :
  Py.index l 0 = Ok a -> exists rest, l = a :: rest.
Proof.
  destruct l as [|x l']; [discriminate|].
  rewrite index_first. intros [= ->]. eauto.
Qed.

(** Every outcome of [add_stack]. *)
Lemma add_stack_outcome (stack l : list ref) (h : Piece.store)
    (r : result unit) (st' : Field.state) :
  Field.add_stack stack (h, Field.mk l) = (r, st') ->
  (r = Ok tt /\ st'.2 = Field.mk (l ++ stack) /\
   ((l = [] /\ st'.1 = h) \/
    (exists below t pt b rest pb,
        l = below ++ [t] /\ stack = b :: rest /\
        h !! t = Some pt /\ h !! b = Some pb /\ Piece.type pb = CAP /\
        st'.1 = <[t := Piece.mk (Piece.color pt) FLAT]> h) \/
    (exists below t pt b rest pb,
        l = below ++ [t] /\ stack = b :: rest /\
        h !! t = Some pt /\ h !! b = Some pb /\ Piece.type pb <> CAP /\
        Piece.type pt = FLAT /\ st'.1 = h))) \/
  (exists e, r = Raise e /\ st' = (h, Field.mk l)).
Proof.
  run.
  destruct (Z.eqb_spec (Z.of_nat (length l)) 0) as [Hl|Hl]; cbn.
  { intros [= <- <-]. left. destruct l; [auto|]. cbn in Hl. lia. }
  destruct (Py.index stack 0) as [b|e] eqn:Hb; cbn;
    [|intros [= <- <-]; right; eauto].
  apply index_zero_inv in Hb as [rest ->].
  destruct (h !! b) as [pb|] eqn:Hpb; cbn; [|intros [= <- <-]; right; eauto].
  destruct (String.eqb_spec (Piece.type pb) CAP) as [Hcap|Hcap]; cbn.
  - destruct (Py.index l (-1)) as [t|e] eqn:Ht; cbn;
      [|intros [= <- <-]; right; eauto].
    destruct (h !! t) as [pt|] eqn:Hpt; cbn; [|intros [= <- <-]; right; eauto].
    rewrite Ht. cbn. rewrite lookup_insert_eq. cbn.
    intros [= <- <-]. left. split; [reflexivity|]. split; [reflexivity|].
    right. left. apply index_neg1_inv in Ht as [below ->].
    exists below, t, pt, b, rest, pb. auto 10.
  - destruct (Py.index l (-1)) as [t|e] eqn:Ht; cbn;
      [|intros [= <- <-]; right; eauto].
    destruct (h !! t) as [pt|] eqn:Hpt; cbn; [|intros [= <- <-]; right; eauto].
    destruct (String.eqb_spec (Piece.type pt) FLAT) as [Hflat|Hflat]; cbn;
      intros [= <- <-].
    + left. split; [reflexivity|]. split; [reflexivity|].
      right. right. apply index_neg1_inv in Ht as [below ->].
      exists below, t, pt, b, rest, pb. auto 10.
    + right. eauto.
Qed.

(** X1. A call of [add_stack] that returns normally has put the incoming
    pieces, in their order, on top of the pieces the cell held.  The
    store is as before when the cell was empty, and when the bottom
    incoming piece is not a capstone, the former top then being a flat
    stone; when the cell was occupied and the bottom incoming piece is
    a capstone, the only change of the store is that the former top
    piece is a flat stone of its former colour. *)
Theorem add_stack_appends (stack : list ref) (st st' : Field.state) :
  Field.add_stack stack st = (Ok tt, st') ->
  Field._stack st'.2 = Field._stack st.2 ++ stack /\
  ((Field._stack st.2 = [] /\ st'.1 = st.1) \/
   (exists below t pt b rest pb,
       Field._stack st.2 = below ++ [t] /\ stack = b :: rest /\
       st.1 !! t = Some pt /\ st.1 !! b = Some pb /\
       Piece.type pb = CAP /\
       st'.1 = <[t := Piece.mk (Piece.color pt) FLAT]> st.1) \/
   (exists below t pt b rest pb,
       Field._stack st.2 = below ++ [t] /\ stack = b :: rest /\
       st.1 !! t = Some pt /\ st.1 !! b = Some pb /\
       Piece.type pb <> CAP /\ Piece.type pt = FLAT /\
       st'.1 = st.1)).
Proof.
  destruct st as [h [l]]. intros H.
  apply add_stack_outcome in H as [(_ & Hst & Hh)|(e & He & _)]; [|discriminate He].
  rewrite Hst. split; [reflexivity|]. exact Hh.
Qed.

Lemma add_stack_appends_scenario_B :
  let st : Field.state := (pieces_B, cell_B) in
  let st' : Field.state :=
    (<[2%positive := white_flat]> pieces_B, Field.mk [1; 2; 3]%positive) in
  Field._stack st'.2 = Field._stack st.2 ++ [3%positive] /\
  ((Field._stack st.2 = [] /\ st'.1 = st.1) \/
   (exists below t pt b rest pb,
       Field._stack st.2 = below ++ [t] /\ [3%positive] = b :: rest /\
       st.1 !! t = Some pt /\ st.1 !! b = Some pb /\
       Piece.type pb = CAP /\
       st'.1 = <[t := Piece.mk (Piece.color pt) FLAT]> st.1) \/
   (exists below t pt b rest pb,
       Field._stack st.2 = below ++ [t] /\ [3%positive] = b :: rest /\
       st.1 !! t = Some pt /\ st.1 !! b = Some pb /\
       Piece.type pb <> CAP /\ Piece.type pt = FLAT /\
       st'.1 = st.1)).
Proof.
  intros st st'. apply (add_stack_appends [3%positive] st st').
  vm_compute; reflexivity.
Defined.

(** X2. A call of [add_stack] that raises has changed neither the cell
    nor the store. *)
Theorem add_stack_raise_changes_nothing (stack : list ref)
    (st st' : Field.state) (e : exn) :
  Field.add_stack stack st = (Raise e, st') -> st' = st.
Proof.
  destruct st as [h [l]]. intros H.
  apply add_stack_outcome in H as [(Hr & _)|(e' & _ & Hst)]; [discriminate Hr|].
  exact Hst.
Qed.

Lemma add_stack_raise_changes_nothing_wall :
  Field.add_stack [1%positive] (pieces_B, cell_B)
  = (Raise (AssertionError PlayOntoFlat), (pieces_B, cell_B)).
Proof.
  destruct (Field.add_stack [1%positive] (pieces_B, cell_B)) as [r st'] eqn:H.
  assert (Hr : r = Raise (AssertionError PlayOntoFlat))
    by (apply (f_equal fst) in H; vm_compute in H; congruence).
  subst r. rewrite (add_stack_raise_changes_nothing _ _ _ _ H). reflexivity.
Defined.

Lemma slice_to_from {A} (l : list A) (i : Z) :
  Py.slice_to l i ++ Py.slice_from l i = l.
Proof. unfold Py.slice_to, Py.slice_from. apply take_drop. Qed.

(** Every outcome of [take_stones]. *)
Lemma take_stones_outcome (count : Z) (h : Piece.store) (l : list ref) :
  Field.take_stones count (h, Field.mk l)
  = if Z.of_nat (length l) >=? count
    then (Ok (Py.slice_from l (- count)), (h, Field.mk (Py.slice_to l (- count))))
    else (Raise (AssertionError TakeHeight), (h, Field.mk l)).
Proof. run. destruct (Z.of_nat (length l) >=? count); reflexivity. Qed.

(** X3. Whatever the count, a call of [take_stones] that returns
    normally has split the stack: the pieces left in the cell followed
    by the pieces returned are the pieces the cell held, in their order;
    the store is untouched. *)
Theorem take_stones_splits_the_stack (count : Z) (st st' : Field.state)
    (taken : list ref) :
  Field.take_stones count st = (Ok taken, st') ->
  Field._stack st'.2 ++ taken = Field._stack st.2 /\ st'.1 = st.1.
Proof.
  destruct st as [h [l]]. rewrite take_stones_outcome.
  destruct (Z.of_nat (length l) >=? count); [|discriminate].
  intros [= <- <-]. cbn. split; [apply slice_to_from|reflexivity].
Qed.

Lemma take_stones_splits_the_stack_four :
  [1; 2; 3]%positive ++ [4%positive] = [1; 2; 3; 4]%positive /\
  four_flats = four_flats.
Proof.
  apply (take_stones_splits_the_stack 1
           (four_flats, Field.mk [1; 2; 3; 4]%positive)
           (four_flats, Field.mk [1; 2; 3]%positive) [4%positive]).
  vm_compute; reflexivity.
Defined.

(** X4. [take_stones] raises exactly when the count exceeds the height,
    and then leaves the cell as it was; in particular it accepts every
    negative count, and then leaves only the bottom [-count] pieces and
    returns all the pieces above them. *)
Theorem take_stones_count_range (count : Z) (h : Piece.store) (l : list ref) :
  (Z.of_nat (length l) < count <->
   Field.take_stones count (h, Field.mk l)
   = (Raise (AssertionError TakeHeight), (h, Field.mk l))) /\
  (count <= Z.of_nat (length l) ->
   exists taken st', Field.take_stones count (h, Field.mk l) = (Ok taken, st')) /\
  (count < 0 ->
   Field.take_stones count (h, Field.mk l)
   = (Ok (drop (Z.to_nat (- count)) l),
      (h, Field.mk (take (Z.to_nat (- count)) l)))).
Proof.
  rewrite take_stones_outcome.
  destruct (Z.geb_spec (Z.of_nat (length l)) count) as [Hle|Hgt].
  - split; [split; [lia|discriminate]|]. split; [eauto|].
    intros Hneg. rewrite slice_from_nonneg, slice_to_nonneg by lia.
    reflexivity.
  - split; [split; [reflexivity|lia]|]. split; lia.
Qed.

Lemma take_stones_count_range_minus_one :
  Field.take_stones (-1) (four_flats, Field.mk [1; 2; 3; 4]%positive)
  = (Ok [2; 3; 4]%positive, (four_flats, Field.mk [1%positive])).
Proof.
  apply (proj2 (proj2 (take_stones_count_range (-1) four_flats
                         [1; 2; 3; 4]%positive))).
  lia.
Defined.

(** X5. [top] and [controlled_by] raise [IndexError] on an empty cell;
    on an occupied cell they give the last piece of the stack and its
    colour, and change nothing. *)
Theorem controlled_by_is_colour_of_top (h : Piece.store) :
  Field.top (h, Field.mk []) = (Raise IndexError, (h, Field.mk [])) /\
  Field.controlled_by (h, Field.mk []) = (Raise IndexError, (h, Field.mk [])) /\
  (forall (below : list ref) (t : ref) (p : Piece.t),
      h !! t = Some p ->
      Field.top (h, Field.mk (below ++ [t]))
      = (Ok t, (h, Field.mk (below ++ [t]))) /\
      Field.controlled_by (h, Field.mk (below ++ [t]))
      = (Ok (Piece.color p), (h, Field.mk (below ++ [t])))).
Proof.
  split; [reflexivity|]. split; [reflexivity|].
  intros below t p Ht.
  split; unfold Field.controlled_by; run; rewrite index_last; cbn; [reflexivity|].
  rewrite Ht. reflexivity.
Qed.

Lemma controlled_by_is_colour_of_top_scenario_B :
  Field.top (pieces_B, cell_B) = (Ok 2%positive, (pieces_B, cell_B)) /\
  Field.controlled_by (pieces_B, cell_B) = (Ok WHITE, (pieces_B, cell_B)).
Proof.
  apply (proj2 (proj2 (controlled_by_is_colour_of_top pieces_B))
           [1%positive] 2%positive white_wall).
  reflexivity.
Defined.

(** X6. [flatten] is idempotent: a second call returns normally and
    leaves the store of the first call; the piece keeps its colour and
    no other piece is touched. *)
Theorem flatten_twice (h h1 : Piece.store) (r : ref) :
  Piece.flatten r h = (Ok tt, h1) ->
  Piece.flatten r h1 = (Ok tt, h1) /\
  (exists p, h !! r = Some p /\ h1 !! r = Some (Piece.mk (Piece.color p) FLAT)) /\
  (forall r', r' <> r -> h1 !! r' = h !! r').
Proof.
  destruct (h !! r) as [p|] eqn:Hr.
  - rewrite (flatten_sets_flat h r p Hr). intros [= <-].
    split.
    + rewrite (flatten_sets_flat _ r (Piece.mk (Piece.color p) FLAT))
        by apply lookup_insert_eq.
      cbn. rewrite insert_insert_eq. reflexivity.
    + split; [exists p; rewrite lookup_insert_eq; auto|].
      intros r' Hne. apply lookup_insert_ne. congruence.
  - unfold Piece.flatten, Piece.set_type, Piece.deref, assert_, bind, modify, ret.
    cbn. rewrite Hr. discriminate.
Qed.

Lemma flatten_twice_wall :
  Piece.flatten 2%positive (<[2%positive := white_flat]> pieces_B)
  = (Ok tt, <[2%positive := white_flat]> pieces_B).
Proof.
  apply (flatten_twice pieces_B (<[2%positive := white_flat]> pieces_B) 2%positive).
  vm_compute; reflexivity.
Defined.

(** X7. [Piece(color, piece_type)] returns normally exactly for the two
    colours and the three stone types; the new object is at a reference
    the store did not hold, has the colour and type given, and every
    other object is as before.  When it raises, the store is
    unchanged. *)
Theorem piece_init_allocates (color piece_type : string) (h h' : Piece.store)
    (r : result ref) :
  Piece.init color piece_type h = (r, h') ->
  (Py.str_in color [BLACK; WHITE] && Py.str_in piece_type STONE_TYPES = true /\
   exists self, r = Ok self /\ h !! self = None /\
     h' = <[self := Piece.mk color piece_type]> h) \/
  (Py.str_in color [BLACK; WHITE] && Py.str_in piece_type STONE_TYPES = false /\
   h' = h /\
   r = Raise (AssertionError
                (if Py.str_in color [BLACK; WHITE] then PieceType else PieceColor))).
Proof.
  unfold Piece.init, assert_, bind, gets, modify, ret, raise.
  destruct (Py.str_in color [BLACK; WHITE]); cbv beta iota;
    [|intros [= <- <-]; right; auto].
  destruct (Py.str_in piece_type STONE_TYPES); cbv beta iota;
    [|intros [= <- <-]; right; auto].
  intros [= <- <-]. left. split; [reflexivity|].
  exists (fresh (dom h)). split; [reflexivity|]. split; [|reflexivity].
  apply not_elem_of_dom. apply is_fresh.
Qed.

Lemma piece_init_allocates_fifth :
  exists self, 
    Ok 5%positive = Ok self /\ four_flats !! self = None /\
    <[5%positive := white_cap]> four_flats
    = <[self := Piece.mk WHITE CAP]> four_flats.
Proof.
  destruct (piece_init_allocates WHITE CAP four_flats
              (<[5%positive := white_cap]> four_flats) (Ok 5%positive))
    as [[_ H]|[_ [_ H]]].
  - vm_compute; reflexivity.
  - exact H.
  - discriminate H.
Defined.

(** ** The stacking rule *)

Import Stacking.

Lemma forallb_true_Forall {A} (f : A -> bool) (l : list A) :
  forallb f l = true <-> Forall (fun a => f a = true) l.
Proof.
  induction l as [|a l IH]; cbn; [split; auto|].
  rewrite andb_true_iff, IH. split.
  - intros [? ?]; constructor; auto.
  - inversion 1; auto.
Qed.

Lemma Forall_mono {A} (P Q : A -> Prop) (l : list A) :
  (forall a, P a -> Q a) -> Forall P l -> Forall Q l.
Proof. intros HPQ. induction 1; constructor; auto. Qed.

Lemma flat_below_top_Forall (h : Piece.store) (l : list ref) :
  flat_below_top h l = true
  <-> Forall (fun r => is_flat h r = true) (removelast l).
Proof. apply forallb_true_Forall. Qed.

Lemma board_ok_Forall (h : Piece.store) (b : Board.t) :
  board_ok h b = true
  <-> Forall (Forall (fun f => flat_below_top h (Field._stack f) = true))
             (Board._fields b).
Proof.
  unfold board_ok. rewrite forallb_true_Forall.
  split; apply Forall_mono; intros row; apply forallb_true_Forall.
Qed.

Lemma Forall_removelast {A} (P : A -> Prop) (l : list A) :
  Forall P l -> Forall P (removelast l).
Proof.
  induction 1 as [|a l Ha Hl IH]; cbn; [constructor|].
  destruct l; [constructor|]. constructor; assumption.
Qed.

Lemma Forall_removelast_take {A} (P : A -> Prop) (l : list A) (k : nat) :
  Forall P (removelast l) -> Forall P (removelast (take k l)).
Proof.
  intros H. destruct (decide (length l <= k)%nat) as [Hk|Hk].
  - rewrite take_ge by lia. exact H.
  - apply Forall_removelast.
    rewrite <- (take_drop k l) in H.
    rewrite removelast_app in H.
    + apply Forall_app in H. apply H.
    + intros Hnil. apply (f_equal length) in Hnil.
      rewrite length_drop in Hnil. cbn in Hnil. lia.
Qed.

Lemma Forall_removelast_drop {A} (P : A -> Prop) (l : list A) (k : nat) :
  Forall P (removelast l) -> Forall P (removelast (drop k l)).
Proof.
  intros H. destruct (drop k l) as [|a l'] eqn:Hd; [constructor|].
  rewrite <- (take_drop k l) in H. rewrite Hd in H.
  rewrite removelast_app in H by discriminate.
  apply Forall_app in H. apply H.
Qed.

Lemma flat_below_top_slices (h : Piece.store) (l : list ref) (i : Z) :
  flat_below_top h l = true ->
  flat_below_top h (Py.slice_to l i) = true /\
  flat_below_top h (Py.slice_from l i) = true.
Proof.
  rewrite !flat_below_top_Forall. intros H. split.
  - apply Forall_removelast_take, H.
  - apply Forall_removelast_drop, H.
Qed.

Lemma flat_kept_refl (h : Piece.store) : flat_kept h h.
Proof. intros r H. exact H. Qed.

Lemma flat_kept_trans (h1 h2 h3 : Piece.store) :
  flat_kept h1 h2 -> flat_kept h2 h3 -> flat_kept h1 h3.
Proof. intros H12 H23 r H. auto. Qed.

Lemma flat_kept_insert (h : Piece.store) (t : ref) (c : string) :
  flat_kept h (<[t := Piece.mk c FLAT]> h).
Proof.
  intros r H. unfold is_flat in *.
  destruct (decide (t = r)) as [->|Hne].
  - rewrite lookup_insert_eq. reflexivity.
  - rewrite lookup_insert_ne by exact Hne. exact H.
Qed.

Lemma flat_below_top_kept (h h' : Piece.store) (l : list ref) :
  flat_kept h h' -> flat_below_top h l = true -> flat_below_top h' l = true.
Proof.
  intros Hk. rewrite !flat_below_top_Forall.
  apply Forall_mono. intros r. apply Hk.
Qed.

Lemma board_ok_kept (h h' : Piece.store) (b : Board.t) :
  flat_kept h h' -> board_ok h b = true -> board_ok h' b = true.
Proof.
  intros Hk. rewrite !board_ok_Forall.
  apply Forall_mono. intros row. apply Forall_mono. intros f.
  apply flat_below_top_kept, Hk.
Qed.

(** What [add_stack] does to the stacking rule, whatever its outcome. *)
Lemma add_stack_stacking (stack l : list ref) (h : Piece.store)
    (r : result unit) (st' : Field.state) :
  Field.add_stack stack (h, Field.mk l) = (r, st') ->
  flat_kept h st'.1 /\
  (flat_below_top h l = true -> flat_below_top h stack = true ->
   flat_below_top st'.1 (Field._stack st'.2) = true).
Proof.
  intros H. apply add_stack_outcome in H
    as [(_ & Hst & [[-> ->]|[Hcap|Hflat]])|(e & _ & ->)].
  - rewrite Hst. split; [apply flat_kept_refl|]. intros _ Hs. exact Hs.
  - destruct Hcap as (below & t & pt & b & rest & pb & -> & -> & Ht & Hb & _ & ->).
    rewrite Hst. split; [apply flat_kept_insert|].
    intros Hl Hs. cbn [Field._stack].
    apply flat_below_top_Forall.
    rewrite removelast_app by discriminate.
    apply flat_below_top_Forall in Hl, Hs.
    rewrite removelast_app, app_nil_r in Hl by discriminate.
    apply Forall_app. split; [apply Forall_app; split|].
    + revert Hl. apply Forall_mono. intros r'. apply flat_kept_insert.
    + constructor; [|constructor]. unfold is_flat.
      rewrite lookup_insert_eq. reflexivity.
    + revert Hs. apply Forall_mono. intros r'. apply flat_kept_insert.
  - destruct Hflat as (below & t & pt & b & rest & pb & -> & -> & Ht & Hb & _ & Hpt & ->).
    rewrite Hst. split; [apply flat_kept_refl|].
    intros Hl Hs. cbn [Field._stack].
    apply flat_below_top_Forall.
    rewrite removelast_app by discriminate.
    apply flat_below_top_Forall in Hl, Hs.
    rewrite removelast_app, app_nil_r in Hl by discriminate.
    apply Forall_app. split; [apply Forall_app; split|]; [exact Hl| |exact Hs].
    constructor; [|constructor]. unfold is_flat. rewrite Ht, Hpt. reflexivity.
  - split; [apply flat_kept_refl|]. intros Hl _. exact Hl.
Qed.

(** X8. Whatever its outcome, [add_stack] keeps the stacking rule: when
    every piece below the top of the cell is flat, and every piece
    below the top of the incoming sub-stack is flat, every piece below
    the top of the cell is flat afterwards; and no flat stone of the
    store stops being flat. *)
Theorem add_stack_keeps_stacking_rule (stack : list ref) (st st' : Field.state)
    (r : result unit) :
  Field.add_stack stack st = (r, st') ->
  flat_below_top st.1 (Field._stack st.2) = true ->
  flat_below_top st.1 stack = true ->
  flat_below_top st'.1 (Field._stack st'.2) = true /\
  (forall r', is_flat st.1 r' = true -> is_flat st'.1 r' = true).
Proof.
  destruct st as [h [l]]. intros H Hl Hs.
  apply add_stack_stacking in H as [Hk Hflat].
  split; [exact (Hflat Hl Hs)|exact Hk].
Qed.

Lemma add_stack_keeps_stacking_rule_scenario_B :
  flat_below_top (<[2%positive := white_flat]> pieces_B) [1; 2; 3]%positive = true /\
  (forall r', is_flat pieces_B r' = true ->
              is_flat (<[2%positive := white_flat]> pieces_B) r' = true).
Proof.
  pose proof (add_stack_keeps_stacking_rule [3%positive] (pieces_B, cell_B)
                (<[2%positive := white_flat]> pieces_B,
                 Field.mk [1; 2; 3]%positive) (Ok tt)) as H.
  cbn [fst snd Field._stack] in H. apply H; vm_compute; reflexivity.
Defined.

(** ** Board: reading and writing cells *)

Lemma index_nonneg_lookup {A} (l : list A) (i : Z) (a : A) :
  0 <= i -> Py.index l i = Ok a -> l !! Z.to_nat i = Some a.
Proof.
  intros Hi. unfold Py.index.
  destruct (Z.ltb_spec i 0); [lia|].
  destruct (_ || _); [discriminate|].
  destruct (l !! Z.to_nat i); [|discriminate]. congruence.
Qed.

Lemma lookup_index_nonneg {A} (l : list A) (i : Z) (a : A) :
  0 <= i -> l !! Z.to_nat i = Some a -> Py.index l i = Ok a.
Proof.
  intros Hi Hl. unfold Py.index.
  destruct (Z.ltb_spec i 0); [lia|].
  pose proof (lookup_lt_Some _ _ _ Hl) as Hlt.
  destruct (Z.ltb_spec i 0); [lia|].
  destruct (Z.leb_spec (Z.of_nat (length l)) i); [lia|].
  cbn. rewrite Hl. reflexivity.
Qed.

Lemma index_raise {A} (l : list A) (i : Z) (e : exn) :
  Py.index l i = Raise e -> e = IndexError.
Proof.
  unfold Py.index. cbv zeta.
  destruct (_ || _); [congruence|].
  destruct (l !! _); congruence.
Qed.

(** [field] never changes the state; it returns the cell exactly when
    the coordinates pass the assertion and the grid has the cell. *)
Lemma field_outcome (x y : Z) (w : Board.world) :
  let size := Board._size (Board.board w) in
  let c := (Z.to_nat x, Z.to_nat y) in
  Board.field x y w
  = if ((0 <=? x) && (x <? size)) && ((0 <=? y) && (y <? size))
    then match Board.fields_at c (Board.board w) with
         | Some _ => (Ok c, w)
         | None => (Raise IndexError, w)
         end
    else (Raise (AssertionError FieldBounds), w).
Proof.
  cbv zeta. unfold Board.field, bind, gets, assert_, lift, ret, raise.
  destruct (_ && _) eqn:Hrange; [|reflexivity].
  rewrite !andb_true_iff, !Z.leb_le, !Z.ltb_lt in Hrange.
  destruct Hrange as [[Hx0 Hx1] [Hy0 Hy1]].
  unfold Board.fields_at. cbn [fst snd].
  destruct (Board._fields (Board.board w) !! Z.to_nat x) as [row|] eqn:Hrow.
  - rewrite (lookup_index_nonneg _ _ _ Hx0 Hrow).
    destruct (row !! Z.to_nat y) as [f|] eqn:Hf.
    + rewrite (lookup_index_nonneg _ _ _ Hy0 Hf). reflexivity.
    + destruct (Py.index row y) as [f|e] eqn:Hi.
      * apply (index_nonneg_lookup _ _ _ Hy0) in Hi. simplify_eq.
      * apply index_raise in Hi as ->. reflexivity.
  - destruct (Py.index _ x) as [row|e] eqn:Hi.
    + apply (index_nonneg_lookup _ _ _ Hx0) in Hi. simplify_eq.
    + apply index_raise in Hi as ->. reflexivity.
Qed.

Lemma field_state (x y : Z) (w : Board.world) : (Board.field x y w).2 = w.
Proof.
  rewrite field_outcome. cbv zeta.
  destruct (_ && _); [|reflexivity].
  destruct (Board.fields_at _ _); reflexivity.
Qed.

Lemma field_ok_inv (x y : Z) (w w' : Board.world) (c : Board.cell) :
  Board.field x y w = (Ok c, w') ->
  w' = w /\ c = (Z.to_nat x, Z.to_nat y) /\
  (0 <= x < Board._size (Board.board w)) /\
  (0 <= y < Board._size (Board.board w)) /\
  exists f, Board.fields_at c (Board.board w) = Some f.
Proof.
  rewrite field_outcome. cbv zeta.
  destruct (_ && _) eqn:Hrange; [|discriminate].
  rewrite !andb_true_iff, !Z.leb_le, !Z.ltb_lt in Hrange.
  destruct (Board.fields_at _ _) as [f|] eqn:Hf; [|discriminate].
  intros [= <- <-]. repeat split; try lia. eauto.
Qed.

Lemma put_field_same (c : Board.cell) (f : Field.t) (b : Board.t) :
  Board.fields_at c b = Some f -> Board.put_field c f b = b.
Proof.
  unfold Board.fields_at, Board.put_field. destruct b as [size fs]. cbn.
  destruct (fs !! c.1) as [row|] eqn:Hrow; [|discriminate].
  intros Hf. cbn. f_equal.
  rewrite (list_insert_id row) by exact Hf.
  apply list_insert_id, Hrow.
Qed.

Lemma fields_at_put_field_eq (c : Board.cell) (f f' : Field.t) (b : Board.t) :
  Board.fields_at c b = Some f ->
  Board.fields_at c (Board.put_field c f' b) = Some f'.
Proof.
  unfold Board.fields_at, Board.put_field. cbn.
  destruct (Board._fields b !! c.1) as [row|] eqn:Hrow; [|discriminate].
  intros Hf. cbn.
  rewrite list_lookup_insert_eq by (eapply lookup_lt_Some, Hrow).
  apply list_lookup_insert_eq. eapply lookup_lt_Some, Hf.
Qed.

Lemma fields_at_put_field_ne (c c' : Board.cell) (f' : Field.t) (b : Board.t) :
  c' <> c ->
  Board.fields_at c' (Board.put_field c f' b) = Board.fields_at c' b.
Proof.
  unfold Board.fields_at, Board.put_field. cbn. intros Hne.
  destruct (decide (c.1 = c'.1)) as [H1|H1].
  - rewrite <- H1.
    destruct (Board._fields b !! c.1) as [row|] eqn:Hrow.
    + cbn. rewrite list_lookup_insert_eq by (eapply lookup_lt_Some, Hrow).
      apply list_lookup_insert_ne. intros H2. apply Hne.
      destruct c, c'; cbn in *; congruence.
    + cbn. rewrite list_insert_ge by (apply lookup_ge_None, Hrow).
      destruct (Board._fields b !! c.1); [discriminate|reflexivity].
  - rewrite list_lookup_insert_ne by exact H1. reflexivity.
Qed.

Lemma put_field_put_field (c : Board.cell) (f f' : Field.t) (b : Board.t) :
  Board.put_field c f' (Board.put_field c f b) = Board.put_field c f' b.
Proof.
  unfold Board.put_field. cbn. f_equal.
  destruct (Board._fields b !! c.1) as [row|] eqn:Hrow.
  - cbn. rewrite list_lookup_insert_eq by (eapply lookup_lt_Some, Hrow).
    cbn. rewrite list_insert_insert_eq, list_insert_insert_eq. reflexivity.
  - cbn. rewrite !(list_insert_ge (Board._fields b)) by (apply lookup_ge_None, Hrow).
    reflexivity.
Qed.

(** Every outcome of a method call on the cell [c]. *)
Lemma on_field_outcome {A} (c : Board.cell) (m : M Field.state A)
    (w w' : Board.world) (r : result A) :
  Board.on_field c m w = (r, w') ->
  (Board.fields_at c (Board.board w) = None /\ r = Raise IndexError /\ w' = w) \/
  (exists (f f' : Field.t) (h' : Piece.store),
      Board.fields_at c (Board.board w) = Some f /\
      m (Board.heap w, f) = (r, (h', f')) /\
      w' = Board.World h' (Board.put_field c f' (Board.board w))).
Proof.
  unfold Board.on_field.
  destruct (Board.fields_at c (Board.board w)) as [f|]; [|intros [= <- <-]; auto].
  destruct (m (Board.heap w, f)) as [r0 [h' f']] eqn:Hm.
  intros [= <- <-]. right. exists f, f', h'. auto.
Qed.

(** One turn of the loop of [apply]. *)
Lemma drop_walk_step (i : Z) (rest : list Z) (stack : list ref)
    (x y dx dy : Z) (w w' : Board.world) (r : result unit) :
  Board.drop_walk (i :: rest) stack x y dx dy w = (r, w') ->
  (exists e, Board.field x y w = (Raise e, w) /\ r = Raise e /\ w' = w) \/
  (exists (f f1 : Field.t) (h1 : Piece.store) (r1 : result unit),
      let c := (Z.to_nat x, Z.to_nat y) in
      Board.field x y w = (Ok c, w) /\
      Board.fields_at c (Board.board w) = Some f /\
      Field.add_stack (Py.slice_to stack i) (Board.heap w, f) = (r1, (h1, f1)) /\
      let w1 := Board.World h1 (Board.put_field c f1 (Board.board w)) in
      match r1 with
      | Raise e => r = Raise e /\ w' = w1
      | Ok _ =>
          Board.drop_walk rest (Py.slice_from stack i) (x + dx) (y + dy) dx dy w1
          = (r, w')
      end).
Proof.
  cbn [Board.drop_walk]. unfold bind at 1.
  destruct (Board.field x y w) as [[c|e] w0] eqn:Hfield.
  - pose proof (field_ok_inv _ _ _ _ _ Hfield) as (-> & -> & _ & _ & _).
    unfold bind at 1.
    destruct (Board.on_field _ _ w) as [r1 w1] eqn:Hon.
    apply on_field_outcome in Hon as [(Hnone & _ & _)|(f & f1 & h1 & Hf & Hadd & ->)].
    + apply field_ok_inv in Hfield as (_ & _ & _ & _ & f & Hf). congruence.
    + intros H. right. exists f, f1, h1, r1. cbv zeta.
      split; [reflexivity|]. split; [exact Hf|]. split; [exact Hadd|].
      destruct r1 as [[]|e]; [exact H|]. injection H as <- <-. auto.
  - pose proof (field_state x y w) as Hs. rewrite Hfield in Hs. cbn in Hs. subst w0.
    intros [= <- <-]. left. eauto.
Qed.

(** ** Board: what every outcome of [apply] keeps *)

Lemma board_ok_lookup (h : Piece.store) (b : Board.t) (c : Board.cell)
    (f : Field.t) :
  board_ok h b = true -> Board.fields_at c b = Some f ->
  flat_below_top h (Field._stack f) = true.
Proof.
  rewrite board_ok_Forall. unfold Board.fields_at. intros Hb.
  destruct (Board._fields b !! c.1) as [row|] eqn:Hrow; [|discriminate].
  intros Hf.
  pose proof (proj1 (Forall_lookup _ _) Hb _ _ Hrow) as Hr.
  exact (proj1 (Forall_lookup _ _) Hr _ _ Hf).
Qed.

Lemma board_ok_put_field (h : Piece.store) (b : Board.t) (c : Board.cell)
    (f' : Field.t) :
  board_ok h b = true -> flat_below_top h (Field._stack f') = true ->
  board_ok h (Board.put_field c f' b) = true.
Proof.
  rewrite !board_ok_Forall. unfold Board.put_field. cbn. intros Hb Hf.
  apply Forall_insert; [exact Hb|].
  destruct (Board._fields b !! c.1) as [row|] eqn:Hrow; cbn.
  - apply Forall_insert; [|exact Hf].
    exact (proj1 (Forall_lookup _ _) Hb _ _ Hrow).
  - constructor.
Qed.

Lemma on_field_empty (c : Board.cell) (w : Board.world) :
  Board.on_field c Field.empty w
  = match Board.fields_at c (Board.board w) with
    | Some f => (Ok (Z.of_nat (length (Field._stack f)) =? 0), w)
    | None => (Raise IndexError, w)
    end.
Proof.
  unfold Board.on_field.
  destruct (Board.fields_at c (Board.board w)) as [f|] eqn:Hf; [|reflexivity].
  cbn. rewrite (put_field_same _ _ _ Hf). destruct w; reflexivity.
Qed.

Lemma drop_walk_stacking (move_list : list Z) :
  forall (stack : list ref) (x y dx dy : Z) (w w' : Board.world)
         (r : result unit),
    Board.drop_walk move_list stack x y dx dy w = (r, w') ->
    board_ok (Board.heap w) (Board.board w) = true ->
    flat_below_top (Board.heap w) stack = true ->
    board_ok (Board.heap w') (Board.board w') = true /\
    flat_kept (Board.heap w) (Board.heap w').
Proof.
  induction move_list as [|i rest IH]; intros stack x y dx dy w w' r H Hb Hs.
  - injection H as <- <-. split; [exact Hb|apply flat_kept_refl].
  - apply drop_walk_step in H as [(e & _ & _ & ->)|(f & f1 & h1 & r1 & H)].
    { split; [exact Hb|apply flat_kept_refl]. }
    cbv zeta in H. destruct H as (_ & Hf & Hadd & H).
    destruct (flat_below_top_slices _ _ i Hs) as [Hto Hfrom].
    destruct f as [l].
    pose proof (add_stack_stacking _ _ _ _ _ Hadd) as [Hk Hflat].
    cbn [fst snd] in Hk, Hflat.
    pose proof (board_ok_lookup _ _ _ _ Hb Hf) as Hl.
    assert (Hb1 : board_ok h1 (Board.put_field (Z.to_nat x, Z.to_nat y) f1
                                 (Board.board w)) = true).
    { apply board_ok_put_field; [eapply board_ok_kept; eauto|auto]. }
    destruct r1 as [[]|e].
    + apply IH in H as [Hb' Hk']; cbn [Board.heap Board.board].
      * split; [exact Hb'|]. eapply flat_kept_trans; eauto.
      * exact Hb1.
      * eapply flat_below_top_kept; eauto.
    + destruct H as [_ ->]. cbn. split; [exact Hb1|exact Hk].
Qed.

(** X9. Whatever the action and whatever the outcome, [apply] keeps the
    stacking rule on the whole board: when every piece below the top of
    every cell is flat before the call, the same holds of the board it
    leaves, also when it raises half-way through a move; and no flat
    stone of the store stops being flat. *)
Theorem apply_keeps_stacking_rule (action : Action) (w w' : Board.world)
    (r : result unit) :
  Board.apply action w = (r, w') ->
  board_ok (Board.heap w) (Board.board w) = true ->
  board_ok (Board.heap w') (Board.board w') = true /\
  (forall p, is_flat (Board.heap w) p = true -> is_flat (Board.heap w') p = true).
Proof.
  intros H Hb. destruct action as [a|a|].
  - (* Place *)
    cbn [Board.apply] in H. unfold bind at 1 in H.
    destruct (Board.field _ _ w) as [[c|e] w0] eqn:Hfield.
    2:{ pose proof (field_state (Place.x a) (Place.y a) w) as Hs.
        rewrite Hfield in Hs. cbn in Hs. subst w0.
        injection H as <- <-. split; [exact Hb|apply flat_kept_refl]. }
    apply field_ok_inv in Hfield as (-> & _ & _ & _ & f & Hf).
    unfold bind at 1 in H. rewrite on_field_empty, Hf in H.
    unfold bind at 1, assert_ in H.
    destruct (_ =? 0); [|injection H as <- <-; split;
                          [exact Hb|apply flat_kept_refl]].
    cbn [ret] in H. unfold bind at 1 in H.
    destruct (Board.field _ _ w) as [[c'|e] w0] eqn:Hfield.
    2:{ pose proof (field_state (Place.x a) (Place.y a) w) as Hs.
        rewrite Hfield in Hs. cbn in Hs. subst w0.
        injection H as <- <-. split; [exact Hb|apply flat_kept_refl]. }
    apply field_ok_inv in Hfield as (-> & _ & _ & _ & f' & Hf').
    apply on_field_outcome in H as [(_ & _ & ->)|(g & g' & h' & Hg & Hadd & ->)].
    { split; [exact Hb|apply flat_kept_refl]. }
    destruct g as [l]. unfold Field.add_stone in Hadd.
    apply add_stack_stacking in Hadd as [Hk Hflat]. cbn [fst snd] in Hk, Hflat.
    cbn [Board.heap Board.board]. split; [|exact Hk].
    apply board_ok_put_field; [eapply board_ok_kept; eauto|].
    apply Hflat; [exact (board_ok_lookup _ _ _ _ Hb Hg)|reflexivity].
  - (* Move *)
    rewrite apply_move_unfold in H.
    destruct (_ <=? _); [|injection H as <- <-; split;
                           [exact Hb|apply flat_kept_refl]].
    unfold Board.carry in H. unfold bind at 1 in H.
    destruct (Board.field _ _ w) as [[c|e] w0] eqn:Hfield.
    2:{ pose proof (field_state (Move.x a) (Move.y a) w) as Hs.
        rewrite Hfield in Hs. cbn in Hs. subst w0.
        injection H as <- <-. split; [exact Hb|apply flat_kept_refl]. }
    apply field_ok_inv in Hfield as (-> & _ & _ & _ & f & Hf).
    unfold bind at 1 in H.
    destruct (Board.on_field c _ w) as [r1 w1] eqn:Hon.
    apply on_field_outcome in Hon as [(Hnone & _ & _)|(g & g' & h' & Hg & Htake & ->)];
      [congruence|].
    destruct g as [l]. rewrite take_stones_outcome in Htake.
    pose proof (board_ok_lookup _ _ _ _ Hb Hg) as Hl. cbn in Hl.
    destruct (flat_below_top_slices _ _ (- Move.height a) Hl) as [Hto Hfrom].
    destruct (_ >=? _).
    + injection Htake as <- <- <-.
      unfold bind at 1, lift at 1 in H.
      destruct (Move.direction_vector a) as [[dx dy]|e].
      * apply drop_walk_stacking in H; cbn [Board.heap Board.board].
        -- exact H.
        -- apply board_ok_put_field; assumption.
        -- exact Hfrom.
      * injection H as <- <-. cbn. split; [|apply flat_kept_refl].
        apply board_ok_put_field; assumption.
    + injection Htake as <- <- <-. injection H as <- <-. cbn.
      split; [|apply flat_kept_refl]. apply board_ok_put_field; assumption.
  - injection H as <- <-. split; [exact Hb|apply flat_kept_refl].
Qed.

Lemma apply_keeps_stacking_rule_failed_move :
  board_ok row_pieces board_row_after = true /\
  (forall p, is_flat row_pieces p = true -> is_flat row_pieces p = true).
Proof.
  apply (apply_keeps_stacking_rule (AMove move_row) world_row
           (Board.World row_pieces board_row_after)
           (Raise (AssertionError PlayOntoFlat))); vm_compute; reflexivity.
Defined.

(** ** Board: placing a piece *)

(** [apply] on a [Place], in closed form. *)
Lemma apply_place_eq (a : Place.t) (w : Board.world) :
  Board.apply (APlace a) w
  = match Board.field (Place.x a) (Place.y a) w with
    | (Raise e, _) => (Raise e, w)
    | (Ok c, _) =>
        match Board.fields_at c (Board.board w) with
        | Some f =>
            if Z.of_nat (length (Field._stack f)) =? 0
            then (Ok tt,
                  Board.World (Board.heap w)
                    (Board.put_field c (Field.mk [Place.piece a]) (Board.board w)))
            else (Raise (AssertionError PlaceOnEmpty), w)
        | None => (Raise IndexError, w)
        end
    end.
Proof.
  cbn [Board.apply]. unfold bind at 1.
  destruct (Board.field _ _ w) as [[c|e] w0] eqn:Hfield.
  2:{ pose proof (field_state (Place.x a) (Place.y a) w) as Hs.
      rewrite Hfield in Hs. cbn in Hs. subst w0. reflexivity. }
  pose proof (field_ok_inv _ _ _ _ _ Hfield) as (-> & _ & _ & _ & f & Hf).
  unfold bind at 1. rewrite on_field_empty, Hf.
  unfold bind at 1, assert_.
  destruct (Z.eqb_spec (Z.of_nat (length (Field._stack f))) 0) as [Hl|Hl];
    [|reflexivity].
  cbn [ret]. unfold bind at 1. rewrite Hfield.
  unfold Board.on_field. rewrite Hf.
  destruct f as [l]. destruct l; [|cbn in Hl; lia]. reflexivity.
Qed.

(** X10. [apply] on a [Place] whose target is a cell of the board puts
    the piece alone on the cell when the cell is empty, leaving the
    store and every other cell as they were, and raises the assertion
    of [apply] when the cell is occupied. *)
Theorem apply_place_on_cell (a : Place.t) (w : Board.world) (f : Field.t) :
  let c := (Z.to_nat (Place.x a), Z.to_nat (Place.y a)) in
  0 <= Place.x a < Board._size (Board.board w) ->
  0 <= Place.y a < Board._size (Board.board w) ->
  Board.fields_at c (Board.board w) = Some f ->
  (Field._stack f = [] ->
   exists w',
     Board.apply (APlace a) w = (Ok tt, w') /\
     Board.heap w' = Board.heap w /\
     stack_at c (Board.board w') = [Place.piece a] /\
     forall c', c' <> c -> stack_at c' (Board.board w') = stack_at c' (Board.board w)) /\
  (Field._stack f <> [] ->
   Board.apply (APlace a) w = (Raise (AssertionError PlaceOnEmpty), w)).
Proof.
  cbv zeta. intros Hx Hy Hf. rewrite apply_place_eq, field_outcome. cbv zeta.
  destruct (Z.leb_spec 0 (Place.x a)), (Z.ltb_spec (Place.x a) (Board._size (Board.board w))),
    (Z.leb_spec 0 (Place.y a)), (Z.ltb_spec (Place.y a) (Board._size (Board.board w)));
    try lia.
  cbn [andb]. rewrite Hf. cbv beta iota. rewrite Hf. split.
  - intros ->. cbn [length]. cbn [Z.of_nat Z.eqb].
    eexists. split; [reflexivity|]. cbn [Board.heap Board.board].
    split; [reflexivity|]. unfold stack_at. split.
    + rewrite (fields_at_put_field_eq _ _ _ _ Hf). reflexivity.
    + intros c' Hne. rewrite fields_at_put_field_ne by exact Hne. reflexivity.
  - intros Hne. destruct (Z.eqb_spec (Z.of_nat (length (Field._stack f))) 0) as [Hl|Hl];
      [|reflexivity].
    destruct (Field._stack f); [congruence|cbn in Hl; lia].
Qed.

Lemma apply_place_on_cell_occupied :
  Board.apply (APlace (Place.mk 2%positive 0 0)) world_pass
  = (Raise (AssertionError PlaceOnEmpty), world_pass).
Proof.
  apply (proj2 (apply_place_on_cell (Place.mk 2%positive 0 0) world_pass
                  (Field.mk [1%positive])
                  ltac:(cbn; lia) ltac:(cbn; lia) eq_refl)).
  discriminate.
Defined.

(** X11. A [Place] is all or nothing: whenever [apply] raises on it,
    the board and the store are exactly as before the call. *)
Theorem apply_place_raise_changes_nothing (a : Place.t) (w w' : Board.world)
    (e : exn) :
  Board.apply (APlace a) w = (Raise e, w') -> w' = w.
Proof.
  rewrite apply_place_eq.
  destruct (Board.field _ _ w) as [[c|e0] w0]; [|intros [= _ <-]; reflexivity].
  destruct (Board.fields_at c (Board.board w)) as [f|];
    [|intros [= _ <-]; reflexivity].
  destruct (_ =? 0); [discriminate|]. intros [= _ <-]. reflexivity.
Qed.

Lemma apply_place_raise_changes_nothing_off_board :
  Board.World two_flats board_pass = world_pass.
Proof.
  apply (apply_place_raise_changes_nothing (Place.mk 2%positive 3 0) world_pass
           (Board.World two_flats board_pass) (AssertionError FieldBounds)).
  vm_compute; reflexivity.
Defined.

Lemma place_adds_one_piece (a : Place.t) (w w' : Board.world) :
  Board.apply (APlace a) w = (Ok tt, w') ->
  count_pieces (Board.board w') = S (count_pieces (Board.board w)).
Proof.
  rewrite apply_place_eq.
  destruct (Board.field _ _ w) as [[c|e0] w0]; [|discriminate].
  destruct (Board.fields_at c (Board.board w)) as [f|] eqn:Hf; [|discriminate].
  destruct (Z.eqb_spec (Z.of_nat (length (Field._stack f))) 0) as [Hl|Hl];
    [|discriminate].
  intros [= <-]. cbn [Board.board].
  pose proof (count_pieces_put_field c f (Field.mk [Place.piece a])
                (Board.board w) Hf) as H.
  cbn [Field._stack length] in H. lia.
Qed.

(** X12. A [Place] that [apply] accepts adds exactly one piece to the
    board. *)
Theorem apply_place_adds_one_piece (a : Place.t) (w w' : Board.world) :
  Board.apply (APlace a) w = (Ok tt, w') ->
  count_pieces (Board.board w') = S (count_pieces (Board.board w)).
Proof. apply place_adds_one_piece. Qed.

Lemma apply_place_adds_one_piece_board_pass :
  count_pieces
    (Board.put_field right2 (Field.mk [2%positive]) board_pass)
  = S (count_pieces board_pass).
Proof.
  apply (apply_place_adds_one_piece (Place.mk 2%positive 2 0) world_pass
           (Board.World two_flats
              (Board.put_field right2 (Field.mk [2%positive]) board_pass))).
  vm_compute; reflexivity.
Defined.

(** ** Board: moving a stack *)

Import Line.

(** The [Move] branch of [apply] after its first assertion, in closed
    form down to the walk. *)
Lemma carry_eq (a : Move.t) (w : Board.world) :
  Board.carry a w
  = match Board.field (Move.x a) (Move.y a) w with
    | (Raise e, _) => (Raise e, w)
    | (Ok c, _) =>
        match Board.fields_at c (Board.board w) with
        | Some f =>
            if Z.of_nat (length (Field._stack f)) >=? Move.height a
            then
              let w1 :=
                Board.World (Board.heap w)
                  (Board.put_field c
                     (Field.mk (Py.slice_to (Field._stack f) (- Move.height a)))
                     (Board.board w)) in
              match Move.direction_vector a with
              | Ok (dx, dy) =>
                  Board.drop_walk (Move.move_list a)
                    (Py.slice_from (Field._stack f) (- Move.height a))
                    (Move.x a) (Move.y a) dx dy w1
              | Raise e => (Raise e, w1)
              end
            else (Raise (AssertionError TakeHeight), w)
        | None => (Raise IndexError, w)
        end
    end.
Proof.
  unfold Board.carry. unfold bind at 1.
  destruct (Board.field _ _ w) as [[c|e] w0] eqn:Hfield.
  2:{ pose proof (field_state (Move.x a) (Move.y a) w) as Hs.
      rewrite Hfield in Hs. cbn in Hs. subst w0. reflexivity. }
  pose proof (field_ok_inv _ _ _ _ _ Hfield) as (-> & _ & _ & _ & f & Hf).
  unfold bind at 1. unfold Board.on_field. rewrite Hf.
  destruct f as [l]. rewrite take_stones_outcome. cbn [Field._stack].
  destruct (_ >=? _).
  - unfold bind, lift. destruct (Move.direction_vector a) as [[dx dy]|e]; reflexivity.
  - rewrite (put_field_same _ _ _ Hf). destruct w; reflexivity.
Qed.

(** X13. Before the walk a [Move] is all or nothing: when the origin is
    outside the board, or holds fewer pieces than the move carries,
    [apply] raises the assertion of [field] or of [take_stones] and the
    board and the store are exactly as before. *)
Theorem apply_move_refused_at_origin (a : Move.t) (w : Board.world) :
  let size := Board._size (Board.board w) in
  Move.height a <= size ->
  (~ (0 <= Move.x a < size /\ 0 <= Move.y a < size) ->
   Board.apply (AMove a) w = (Raise (AssertionError FieldBounds), w)) /\
  (forall f,
      0 <= Move.x a < size -> 0 <= Move.y a < size ->
      Board.fields_at (Z.to_nat (Move.x a), Z.to_nat (Move.y a)) (Board.board w)
      = Some f ->
      Z.of_nat (length (Field._stack f)) < Move.height a ->
      Board.apply (AMove a) w = (Raise (AssertionError TakeHeight), w)).
Proof.
  cbv zeta. intros Hh. rewrite apply_move_within_limit by exact Hh.
  rewrite carry_eq, field_outcome. cbv zeta. split.
  - intros Hout.
    destruct (Z.leb_spec 0 (Move.x a)),
      (Z.ltb_spec (Move.x a) (Board._size (Board.board w))),
      (Z.leb_spec 0 (Move.y a)),
      (Z.ltb_spec (Move.y a) (Board._size (Board.board w)));
      cbn [andb]; try reflexivity.
    exfalso. apply Hout. lia.
  - intros f Hx Hy Hf Hshort.
    destruct (Z.leb_spec 0 (Move.x a)),
      (Z.ltb_spec (Move.x a) (Board._size (Board.board w))),
      (Z.leb_spec 0 (Move.y a)),
      (Z.ltb_spec (Move.y a) (Board._size (Board.board w))); try lia.
    cbn [andb]. rewrite Hf. cbv beta iota. rewrite Hf.
    destruct (Z.geb_spec (Z.of_nat (length (Field._stack f))) (Move.height a));
      [lia|reflexivity].
Qed.

Lemma apply_move_refused_at_origin_scenarios :
  Board.apply (AMove (Move.mk 3 0 [1] Move.LEFT)) world_pass
  = (Raise (AssertionError FieldBounds), world_pass) /\
  Board.apply (AMove (Move.mk 0 0 [1; 1] Move.RIGHT)) world_pass
  = (Raise (AssertionError TakeHeight), world_pass).
Proof.
  split.
  - apply (proj1 (apply_move_refused_at_origin (Move.mk 3 0 [1] Move.LEFT)
                    world_pass ltac:(vm_compute; discriminate))).
    cbn. lia.
  - apply (proj2 (apply_move_refused_at_origin (Move.mk 0 0 [1; 1] Move.RIGHT)
                    world_pass ltac:(vm_compute; discriminate))
             (Field.mk [1%positive])); cbn; try lia. reflexivity.
Defined.

Lemma dims_put_field (c : Board.cell) (f f' : Field.t) (b : Board.t) :
  Board.fields_at c b = Some f -> dims (Board.put_field c f' b) = dims b.
Proof.
  unfold dims, Board.fields_at, Board.put_field. cbn.
  destruct (Board._fields b !! c.1) as [row|] eqn:Hrow; [|discriminate].
  intros Hf. cbn. f_equal.
  change (map length ?l) with (length <$> l).
  rewrite list_fmap_insert, length_insert.
  apply list_insert_id. rewrite list_lookup_fmap, Hrow. reflexivity.
Qed.

Lemma drop_walk_dims (move_list : list Z) :
  forall (stack : list ref) (x y dx dy : Z) (w w' : Board.world)
         (r : result unit),
    Board.drop_walk move_list stack x y dx dy w = (r, w') ->
    dims (Board.board w') = dims (Board.board w).
Proof.
  induction move_list as [|i rest IH]; intros stack x y dx dy w w' r H.
  - injection H as <- <-. reflexivity.
  - apply drop_walk_step in H as [(e & _ & _ & ->)|(f & f1 & h1 & r1 & H)];
      [reflexivity|].
    cbv zeta in H. destruct H as (_ & Hf & _ & H).
    destruct r1 as [[]|e].
    + apply IH in H. rewrite H. cbn [Board.board]. eapply dims_put_field, Hf.
    + destruct H as [_ ->]. cbn [Board.board]. eapply dims_put_field, Hf.
Qed.

(** X14. Whatever the action and whatever the outcome, [apply] leaves
    the size of the board and the length of every row as they were. *)
Theorem apply_keeps_dimensions (action : Action) (w w' : Board.world)
    (r : result unit) :
  Board.apply action w = (r, w') ->
  Board._size (Board.board w') = Board._size (Board.board w) /\
  map length (Board._fields (Board.board w'))
  = map length (Board._fields (Board.board w)).
Proof.
  intros H.
  assert (Hd : dims (Board.board w') = dims (Board.board w)).
  { destruct action as [a|a|].
    - rewrite apply_place_eq in H.
      destruct (Board.field _ _ w) as [[c|e0] w0]; [|injection H as _ <-; reflexivity].
      destruct (Board.fields_at c (Board.board w)) as [f|] eqn:Hf;
        [|injection H as _ <-; reflexivity].
      destruct (_ =? 0); injection H as _ <-; [|reflexivity].
      eapply dims_put_field, Hf.
    - rewrite apply_move_unfold in H.
      destruct (_ <=? _); [|injection H as _ <-; reflexivity].
      rewrite carry_eq in H.
      destruct (Board.field _ _ w) as [[c|e0] w0]; [|injection H as _ <-; reflexivity].
      destruct (Board.fields_at c (Board.board w)) as [f|] eqn:Hf;
        [|injection H as _ <-; reflexivity].
      destruct (_ >=? _); [|injection H as _ <-; reflexivity].
      cbv zeta in H.
      destruct (Move.direction_vector a) as [[dx dy]|e].
      + apply drop_walk_dims in H. rewrite H. eapply dims_put_field, Hf.
      + injection H as _ <-. eapply dims_put_field, Hf.
    - injection H as _ <-. reflexivity. }
  unfold dims in Hd. injection Hd as H1 H2. auto.
Qed.

Lemma apply_keeps_dimensions_failed_move :
  Board._size board_row_after = Board._size board_row /\
  map length (Board._fields board_row_after)
  = map length (Board._fields board_row).
Proof.
  apply (apply_keeps_dimensions (AMove move_row) world_row
           (Board.World row_pieces board_row_after)
           (Raise (AssertionError PlayOntoFlat))).
  vm_compute; reflexivity.
Defined.

Lemma cursor_succ (x y dx dy : Z) (k : nat) :
  cursor (x + dx) (y + dy) dx dy k = cursor x y dx dy (S k).
Proof. unfold cursor. f_equal; f_equal; lia. Qed.

Lemma cursor_zero (x y dx dy : Z) :
  cursor x y dx dy 0 = (Z.to_nat x, Z.to_nat y).
Proof. unfold cursor. f_equal; f_equal; lia. Qed.

Lemma drop_walk_frame (move_list : list Z) :
  forall (stack : list ref) (x y dx dy : Z) (w w' : Board.world)
         (r : result unit) (c : Board.cell),
    Board.drop_walk move_list stack x y dx dy w = (r, w') ->
    (forall k, (k < length move_list)%nat -> c <> cursor x y dx dy k) ->
    Board.fields_at c (Board.board w') = Board.fields_at c (Board.board w).
Proof.
  induction move_list as [|i rest IH]; intros stack x y dx dy w w' r c H Hc.
  - injection H as <- <-. reflexivity.
  - assert (Hc0 : c <> (Z.to_nat x, Z.to_nat y)).
    { rewrite <- (cursor_zero x y dx dy). apply Hc. cbn. lia. }
    apply drop_walk_step in H as [(e & _ & _ & ->)|(f & f1 & h1 & r1 & H)];
      [reflexivity|].
    cbv zeta in H. destruct H as (_ & Hf & _ & H).
    destruct r1 as [[]|e].
    + apply (IH _ _ _ _ _ _ _ _ c) in H.
      * rewrite H. cbn [Board.board]. apply fields_at_put_field_ne, Hc0.
      * intros k Hk. rewrite cursor_succ. apply Hc. cbn. lia.
    + destruct H as [_ ->]. cbn [Board.board].
      apply fields_at_put_field_ne, Hc0.
Qed.

(** X15. A move only writes the cells of its line: whatever the outcome
    of [apply], a cell that is neither the origin nor one of the cells
    where the cursor stands during the walk holds the stack it held
    before. *)
Theorem apply_move_frame (a : Move.t) (w w' : Board.world) (r : result unit)
    (dx dy : Z) (c : Board.cell) :
  Board.apply (AMove a) w = (r, w') ->
  Move.direction_vector a = Ok (dx, dy) ->
  (forall k, (k < Nat.max 1 (length (Move.move_list a)))%nat ->
             c <> cursor (Move.x a) (Move.y a) dx dy k) ->
  stack_at c (Board.board w') = stack_at c (Board.board w).
Proof.
  intros H Hd Hc. unfold stack_at.
  enough (Board.fields_at c (Board.board w') = Board.fields_at c (Board.board w))
    as -> by reflexivity.
  rewrite apply_move_unfold in H.
  destruct (_ <=? _); [|injection H as _ <-; reflexivity].
  rewrite carry_eq, Hd in H.
  destruct (Board.field _ _ w) as [[c0|e0] w0] eqn:Hfield;
    [|injection H as _ <-; reflexivity].
  apply field_ok_inv in Hfield as (-> & -> & _ & _ & _).
  destruct (Board.fields_at _ (Board.board w)) as [f|] eqn:Hf;
    [|injection H as _ <-; reflexivity].
  destruct (_ >=? _); [|injection H as _ <-; reflexivity].
  cbv zeta in H.
  assert (Hc0 : c <> (Z.to_nat (Move.x a), Z.to_nat (Move.y a))).
  { rewrite <- (cursor_zero _ _ dx dy). apply Hc. lia. }
  apply (drop_walk_frame _ _ _ _ _ _ _ _ _ c) in H.
  - rewrite H. cbn [Board.board]. apply fields_at_put_field_ne, Hc0.
  - intros k Hk. apply Hc. lia.
Qed.

Lemma apply_move_frame_failed_move :
  stack_at (0%nat, 1%nat) board_row_after = stack_at (0%nat, 1%nat) board_row.
Proof.
  apply (apply_move_frame move_row world_row
           (Board.World row_pieces board_row_after)
           (Raise (AssertionError PlayOntoFlat)) 1 0 (0%nat, 1%nat)).
  - vm_compute; reflexivity.
  - reflexivity.
  - intros k Hk. unfold cursor. cbn [Move.x Move.y move_row]. intros [= _ H]. lia.
Defined.

Lemma drop_walk_in_bounds (move_list : list Z) :
  forall (stack : list ref) (x y dx dy : Z) (w w' : Board.world),
    Board.drop_walk move_list stack x y dx dy w = (Ok tt, w') ->
    forall k, (k < length move_list)%nat ->
      0 <= x + Z.of_nat k * dx < Board._size (Board.board w) /\
      0 <= y + Z.of_nat k * dy < Board._size (Board.board w).
Proof.
  induction move_list as [|i rest IH]; intros stack x y dx dy w w' H k Hk.
  - cbn in Hk. lia.
  - apply drop_walk_step in H as [(e & _ & He & _)|(f & f1 & h1 & r1 & H)];
      [discriminate He|].
    cbv zeta in H. destruct H as (Hfield & Hf & _ & H).
    apply field_ok_inv in Hfield as (_ & _ & Hx & Hy & _).
    destruct r1 as [[]|e]; [|destruct H as [H _]; discriminate H].
    destruct k as [|k]; [lia|].
    apply IH with (k := k) in H; [|cbn in Hk; lia].
    cbn [Board.board Board.put_field Board._size] in H. lia.
Qed.

(** X16. A move that [apply] accepts never left the board: every cell
    where the cursor stood during the walk, the origin first, has both
    coordinates between 0 and the size of the board. *)
Theorem apply_move_stays_on_board (a : Move.t) (w w' : Board.world)
    (dx dy : Z) (k : nat) :
  Board.apply (AMove a) w = (Ok tt, w') ->
  Move.direction_vector a = Ok (dx, dy) ->
  (k < length (Move.move_list a))%nat ->
  0 <= Move.x a + Z.of_nat k * dx < Board._size (Board.board w) /\
  0 <= Move.y a + Z.of_nat k * dy < Board._size (Board.board w).
Proof.
  intros H Hd Hk. rewrite apply_move_unfold in H.
  destruct (_ <=? _); [|discriminate].
  rewrite carry_eq, Hd in H.
  destruct (Board.field _ _ w) as [[c0|e0] w0] eqn:Hfield; [|discriminate].
  apply field_ok_inv in Hfield as (-> & -> & _ & _ & _).
  destruct (Board.fields_at _ (Board.board w)) as [f|] eqn:Hf; [|discriminate].
  destruct (_ >=? _); [|discriminate].
  cbv zeta in H. apply drop_walk_in_bounds with (k := k) in H; [|exact Hk].
  cbn [Board.board Board.put_field Board._size] in H. exact H.
Qed.

Lemma apply_move_stays_on_board_scenario_C :
  0 <= Move.x move_C + Z.of_nat 1 * 1 < Board._size (Board.board world_C) /\
  0 <= Move.y move_C + Z.of_nat 1 * 0 < Board._size (Board.board world_C).
Proof.
  apply (apply_move_stays_on_board move_C world_C
           (Board.World four_flats board_C_after) 1 0 1%nat).
  - vm_compute; reflexivity.
  - reflexivity.
  - cbn. lia.
Defined.

(** X17. A move with a single entry of at least 1 that [apply] accepts
    moves nothing: the pieces taken from the origin are put back on it,
    so the board is the board before the call, whatever the direction;
    the store keeps every flat stone flat. *)
Theorem apply_single_entry_move_moves_nothing (x y k : Z) (direction : string)
    (w w' : Board.world) :
  1 <= k ->
  Board.apply (AMove (Move.mk x y [k] direction)) w = (Ok tt, w') ->
  Board.board w' = Board.board w /\
  (forall p, is_flat (Board.heap w) p = true -> is_flat (Board.heap w') p = true).
Proof.
  intros Hk H. rewrite apply_move_unfold in H.
  destruct (_ <=? _); [|discriminate].
  rewrite carry_eq in H.
  assert (Hh : Move.height (Move.mk x y [k] direction) = k).
  { unfold Move.height, Py.sum. cbn. lia. }
  rewrite Hh in H. clear Hh. cbn [Move.x Move.y Move.move_list] in H.
  destruct (Board.field x y w) as [[c|e0] w0] eqn:Hfield; [|discriminate].
  pose proof (field_ok_inv _ _ _ _ _ Hfield) as (-> & -> & _ & _ & _).
  destruct (Board.fields_at _ (Board.board w)) as [[l]|] eqn:Hf; [|discriminate].
  cbn [Field._stack] in H.
  destruct (Z.geb_spec (Z.of_nat (length l)) k) as [Hle|]; [|discriminate].
  cbv zeta in H.
  destruct (Move.direction_vector _) as [[dx dy]|e]; [|discriminate].
  apply drop_walk_step in H as [(e & _ & He & _)|(f & f1 & h1 & r1 & H)];
    [discriminate He|].
  cbv zeta in H. cbn [Board.heap Board.board] in H.
  destruct H as (_ & Hf1 & Hadd & H).
  rewrite (fields_at_put_field_eq _ _ _ _ Hf) in Hf1. injection Hf1 as <-.
  destruct r1 as [[]|e]; [|destruct H as [H _]; discriminate H].
  cbn [Board.drop_walk ret] in H. injection H as <-.
  cbn [Board.board Board.heap].
  pose proof (add_stack_stacking _ _ _ _ _ Hadd) as [Hkept _].
  apply add_stack_outcome in Hadd as [(_ & Hst & _)|(e & He & _)];
    [|discriminate He].
  cbn [fst snd] in *. split; [|exact Hkept].
  rewrite put_field_put_field. apply put_field_same.
  rewrite Hf. f_equal. destruct f1 as [l1]. injection Hst as ->. f_equal.
  rewrite slice_from_neg, slice_to_neg by lia.
  rewrite slice_to_nonneg by lia.
  rewrite (take_ge (drop _ l)).
  - symmetry. apply take_drop.
  - rewrite length_drop. lia.
Qed.

Lemma apply_single_entry_move_moves_nothing_scenario :
  Board.board world_pass = Board.board world_pass /\
  (forall p, is_flat two_flats p = true -> is_flat two_flats p = true).
Proof.
  apply (apply_single_entry_move_moves_nothing 0 0 1 Move.RIGHT world_pass
           world_pass); [lia|vm_compute; reflexivity].
Defined.

(** The move of scenario C keeps the four pieces on the board. *)
Lemma apply_move_conserves_pieces_scenario_C :
  count_pieces board_C_after = count_pieces (Board.board world_C).
Proof.
  apply (apply_move_conserves_pieces 0 0 [2; 2] Move.RIGHT move_C world_C
           (Board.World four_flats board_C_after)).
  - reflexivity.
  - vm_compute; discriminate.
  - vm_compute; reflexivity.
Defined.

(** ** Move: construction *)

Lemma min_nonneg_iff (l : list Z) :
  (exists m, Py.min l = Ok m /\ 0 <= m) <-> l <> [] /\ Forall (fun i => 0 <= i) l.
Proof.
  split.
  - intros (m & Hmin & Hm). split; [destruct l; discriminate|].
    eapply min_nonneg; eauto.
  - intros [Hne Hall]. destruct l as [|a l]; [congruence|].
    eexists. split; [reflexivity|].
    inversion Hall as [|? ? Ha Hl]; subst. clear Hall Hne.
    revert a Ha. induction Hl as [|b l Hb Hl IH]; intros a Ha; cbn; [exact Ha|].
    apply IH. lia.
Qed.

(** When [Move.__init__] returns normally. *)
Lemma move_init_ok_iff (x y : Z) (move_list : list Z)
    (direction : string) (a : Move.t) :
  Move.init x y move_list direction = Ok a <->
  0 <= x /\ 0 <= y /\
  Py.str_in direction [Move.UP; Move.DOWN; Move.LEFT; Move.RIGHT] = true /\
  move_list <> [] /\ Forall (fun i => 0 <= i) move_list /\
  a = Move.mk x y move_list direction.
Proof.
  unfold Move.init.
  destruct (Z.geb_spec x 0), (Z.geb_spec y 0); cbn [andb negb];
    try (split; [discriminate|lia]).
  destruct (Py.str_in direction _); cbn [negb];
    [|split; [discriminate|intros (_ & _ & ? & _); discriminate]].
  destruct (Py.min move_list) as [m|e] eqn:Hmin.
  - destruct (Z.geb_spec m 0); cbn [negb].
    + split.
      * intros [= <-]. pose proof (proj1 (min_nonneg_iff move_list)) as Hmn.
        destruct Hmn as [? ?]; [exists m; split; [exact Hmin|lia]|].
        repeat split; try lia; assumption.
      * intros (_ & _ & _ & _ & _ & ->). reflexivity.
    + split; [discriminate|]. intros (_ & _ & _ & Hne & Hall & _).
      destruct (proj2 (min_nonneg_iff move_list) (conj Hne Hall)) as (m' & Hm' & ?).
      rewrite Hmin in Hm'. injection Hm' as ->. lia.
  - split; [discriminate|]. intros (_ & _ & _ & Hne & Hall & _).
    destruct (proj2 (min_nonneg_iff move_list) (conj Hne Hall)) as (m' & Hm' & ?).
    rewrite Hmin in Hm'. discriminate.
Qed.

(** X18. [Move.__init__] returns normally exactly when both coordinates
    are non-negative, the direction is one of the four names, and the
    list of drops is non-empty with no negative entry; the move then
    holds its four arguments unchanged. *)
Theorem move_init_accepts_iff (x y : Z) (move_list : list Z)
    (direction : string) (a : Move.t) :
  Move.init x y move_list direction = Ok a <->
  0 <= x /\ 0 <= y /\
  Py.str_in direction [Move.UP; Move.DOWN; Move.LEFT; Move.RIGHT] = true /\
  move_list <> [] /\ Forall (fun i => 0 <= i) move_list /\
  a = Move.mk x y move_list direction.
Proof. apply move_init_ok_iff. Qed.

Lemma move_init_accepts_iff_scenario_C :
  Move.init 0 0 [2; 2] Move.RIGHT = Ok move_C.
Proof.
  apply (proj2 (move_init_accepts_iff 0 0 [2; 2] Move.RIGHT move_C)).
  repeat split; try lia; try reflexivity; try discriminate.
  repeat constructor; lia.
Defined.

(** X19. The assertions of [Move.__init__] fail in their order: a
    negative coordinate raises the first whatever the other arguments;
    with valid coordinates an unknown direction raises the second
    whatever the list; with both valid a list holding a negative entry
    raises the third. *)
Theorem move_init_first_failure (x y : Z) (move_list : list Z)
    (direction : string) :
  (x < 0 \/ y < 0 ->
   Move.init x y move_list direction = Raise (AssertionError MoveCoordinates)) /\
  (0 <= x -> 0 <= y ->
   Py.str_in direction [Move.UP; Move.DOWN; Move.LEFT; Move.RIGHT] = false ->
   Move.init x y move_list direction = Raise (AssertionError MoveDirection)) /\
  (0 <= x -> 0 <= y ->
   Py.str_in direction [Move.UP; Move.DOWN; Move.LEFT; Move.RIGHT] = true ->
   Exists (fun i => i < 0) move_list ->
   Move.init x y move_list direction = Raise (AssertionError MoveListNonNeg)).
Proof.
  unfold Move.init. split; [|split].
  - intros Hneg. destruct (Z.geb_spec x 0), (Z.geb_spec y 0); cbn; try reflexivity. lia.
  - intros Hx Hy ->. destruct (Z.geb_spec x 0), (Z.geb_spec y 0); cbn; try lia.
    reflexivity.
  - intros Hx Hy -> Hex.
    destruct (Z.geb_spec x 0), (Z.geb_spec y 0); cbn [andb negb]; try lia.
    destruct (Py.min move_list) as [m|e] eqn:Hmin.
    + destruct (Z.geb_spec m 0); [|reflexivity].
      exfalso. pose proof (min_nonneg _ _ Hmin ltac:(lia)) as Hall.
      apply Exists_exists in Hex as (i & Hi & Hlt).
      rewrite Forall_forall in Hall. specialize (Hall i Hi). lia.
    + destruct move_list; [inversion Hex|discriminate].
Qed.

Lemma move_init_first_failure_scenarios :
  Move.init (-1) 0 [] "north" = Raise (AssertionError MoveCoordinates) /\
  Move.init 0 0 [] "north" = Raise (AssertionError MoveDirection) /\
  Move.init 0 0 [1; -1] Move.UP = Raise (AssertionError MoveListNonNeg).
Proof.
  split; [|split].
  - apply (proj1 (move_init_first_failure (-1) 0 [] "north")). lia.
  - apply (proj1 (proj2 (move_init_first_failure 0 0 [] "north")));
      [lia|lia|reflexivity].
  - apply (proj2 (proj2 (move_init_first_failure 0 0 [1; -1] Move.UP)));
      [lia|lia|reflexivity|].
    apply Exists_cons_tl, Exists_cons_hd. lia.
Defined.

Lemma str_in_directions (d : string) :
  Py.str_in d [Move.UP; Move.DOWN; Move.LEFT; Move.RIGHT] = true ->
  d = Move.UP \/ d = Move.DOWN \/ d = Move.LEFT \/ d = Move.RIGHT.
Proof.
  unfold Py.str_in. cbn [existsb].
  rewrite !orb_true_iff, !String.eqb_eq. intuition discriminate.
Qed.

(** X20. The direction vector of a constructed move is always found,
    and is one of the four unit steps along an axis: up is (0, 1), down
    (0, -1), left (-1, 0) and right (1, 0). *)
Theorem direction_vector_of_constructed_move (x y : Z) (move_list : list Z)
    (direction : string) (a : Move.t) :
  Move.init x y move_list direction = Ok a ->
  exists dx dy,
    Move.direction_vector a = Ok (dx, dy) /\
    Z.abs dx + Z.abs dy = 1 /\
    (direction = Move.UP -> (dx, dy) = (0, 1)) /\
    (direction = Move.DOWN -> (dx, dy) = (0, -1)) /\
    (direction = Move.LEFT -> (dx, dy) = (-1, 0)) /\
    (direction = Move.RIGHT -> (dx, dy) = (1, 0)).
Proof.
  intros H. apply move_init_ok_iff in H as (_ & _ & Hd & _ & _ & ->).
  apply str_in_directions in Hd as [-> | [-> | [-> | ->]]].
  - exists 0, 1. repeat split; try reflexivity; discriminate.
  - exists 0, (-1). repeat split; try reflexivity; discriminate.
  - exists (-1), 0. repeat split; try reflexivity; discriminate.
  - exists 1, 0. repeat split; try reflexivity; discriminate.
Qed.

Lemma direction_vector_of_constructed_move_scenario_C :
  exists dx dy,
    Move.direction_vector move_C = Ok (dx, dy) /\
    Z.abs dx + Z.abs dy = 1 /\
    (Move.RIGHT = Move.UP -> (dx, dy) = (0, 1)) /\
    (Move.RIGHT = Move.DOWN -> (dx, dy) = (0, -1)) /\
    (Move.RIGHT = Move.LEFT -> (dx, dy) = (-1, 0)) /\
    (Move.RIGHT = Move.RIGHT -> (dx, dy) = (1, 0)).
Proof.
  apply (direction_vector_of_constructed_move 0 0 [2; 2] Move.RIGHT move_C).
  reflexivity.
Defined.

Lemma sum_entry_bound (l : list Z) :
  Forall (fun i => 0 <= i) l -> Forall (fun i => 0 <= i <= Py.sum l) l.
Proof.
  induction 1 as [|i l Hi Hl IH]; [constructor|].
  rewrite sum_cons. pose proof (sum_nonneg l Hl).
  constructor; [lia|]. revert IH. apply Forall_mono. intros j. lia.
Qed.

(** X21. The height of a constructed move is the sum of its entries; it
    is never negative, no entry exceeds it, and it is 0 exactly when
    every entry is 0. *)
Theorem height_of_constructed_move (x y : Z) (move_list : list Z)
    (direction : string) (a : Move.t) :
  Move.init x y move_list direction = Ok a ->
  0 <= Move.height a /\
  Forall (fun i => 0 <= i <= Move.height a) (Move.move_list a) /\
  (Move.height a = 0 <-> Forall (fun i => i = 0) (Move.move_list a)).
Proof.
  intros H. apply move_init_ok_iff in H as (_ & _ & _ & _ & Hall & ->).
  unfold Move.height. cbn [Move.move_list].
  pose proof (sum_entry_bound _ Hall) as Hb.
  split; [apply sum_nonneg, Hall|]. split; [exact Hb|].
  split.
  - intros H0. rewrite H0 in Hb. revert Hb. apply Forall_mono. intros i. lia.
  - clear Hb Hall. induction 1 as [|i l -> _ IH]; [reflexivity|].
    rewrite sum_cons. lia.
Qed.

Lemma height_of_constructed_move_scenario_C :
  0 <= Move.height move_C /\
  Forall (fun i => 0 <= i <= Move.height move_C) (Move.move_list move_C) /\
  (Move.height move_C = 0 <-> Forall (fun i => i = 0) (Move.move_list move_C)).
Proof.
  apply (height_of_constructed_move 0 0 [2; 2] Move.RIGHT move_C). reflexivity.
Defined.

(** ** Board: construction, bounds and fullness *)

Lemma fields_at_init (size : Z) (c : Board.cell) :
  Board.fields_at c (Board.init size)
  = if decide (c.1 < Z.to_nat size /\ c.2 < Z.to_nat size)%nat
    then Some Field.init else None.
Proof.
  unfold Board.fields_at, Board.init. cbn [Board._fields].
  destruct (decide _) as [[H1 H2]|Hn].
  - rewrite lookup_replicate_2 by exact H1. apply lookup_replicate_2, H2.
  - destruct (replicate _ _ !! c.1) as [row|] eqn:Hrow; [|reflexivity].
    apply lookup_replicate in Hrow as [-> H1].
    apply lookup_replicate_None. lia.
Qed.

(** X22. On the board built by [Board(size)], [field] returns the cell
    exactly for coordinates between 0 and [size - 1] and raises its
    assertion for every other pair, never [IndexError]; every cell is
    empty and the board holds no piece. *)
Theorem board_init_field (size x y : Z) (h : Piece.store) :
  let w := Board.World h (Board.init size) in
  Board.field x y w
  = (if ((0 <=? x) && (x <? size)) && ((0 <=? y) && (y <? size))
     then Ok (Z.to_nat x, Z.to_nat y)
     else Raise (AssertionError FieldBounds), w) /\
  (forall c, stack_at c (Board.init size) = []) /\
  count_pieces (Board.init size) = 0%nat.
Proof.
  cbv zeta. split; [|split].
  - rewrite field_outcome. cbv zeta. cbn [Board.board Board._size Board.init].
    destruct (_ && _) eqn:Hrange; [|reflexivity].
    rewrite !andb_true_iff, !Z.leb_le, !Z.ltb_lt in Hrange.
    change (Board.mk size _) with (Board.init size).
    rewrite fields_at_init. cbn [fst snd].
    destruct (decide _) as [_|Hn]; [reflexivity|]. lia.
  - intros c. unfold stack_at. rewrite fields_at_init.
    destruct (decide _); reflexivity.
  - unfold count_pieces, Board.init. cbn [Board._fields].
    induction (Z.to_nat size) as [|n IH] at 1; [reflexivity|].
    cbn [replicate map sum_list]. simpl. rewrite IH.
    replace (sum_list _) with 0%nat; [reflexivity|].
    clear. induction (Z.to_nat size) as [|m IHm]; [reflexivity|].
    cbn. exact IHm.
Qed.

Lemma for_each_pure {S A B} (f : A -> M S B) (g : A -> B) (l : list A) (s : S) :
  (forall a, In a l -> f a s = (Ok (g a), s)) ->
  Board.for_each f l s = (Ok (map g l), s).
Proof.
  induction l as [|a l IH]; intros H; [reflexivity|].
  cbn [Board.for_each map]. unfold bind at 1.
  rewrite (H a) by (left; reflexivity). unfold bind at 1.
  rewrite IH by (intros; apply H; right; assumption). reflexivity.
Qed.

Lemma in_range (size v : Z) :
  In v (map Z.of_nat (seq 0 (Z.to_nat size))) <-> 0 <= v < size.
Proof.
  rewrite in_map_iff. split.
  - intros (n & <- & Hn). apply in_seq in Hn. lia.
  - intros Hv. exists (Z.to_nat v). split; [lia|]. apply in_seq. lia.
Qed.

(** X23. On a board that has the dimensions of [Board(size)], [full]
    never raises and changes nothing; it returns [True] exactly when no
    cell of the board is empty. *)
Theorem full_iff_no_empty_cell (w : Board.world) :
  let size := Board._size (Board.board w) in
  Line.dims (Board.board w) = Line.dims (Board.init size) ->
  exists b : bool,
    Board.full w = (Ok b, w) /\
    (b = true <->
     forall x y, 0 <= x < size -> 0 <= y < size ->
                 stack_at (Z.to_nat x, Z.to_nat y) (Board.board w) <> []).
Proof.
  cbv zeta. intros Hd.
  set (size := Board._size (Board.board w)) in *.
  assert (Hcell : forall x y, 0 <= x < size -> 0 <= y < size ->
            exists f, Board.fields_at (Z.to_nat x, Z.to_nat y) (Board.board w) = Some f).
  { intros x y Hx Hy. unfold Line.dims in Hd. injection Hd as Hlen.
    unfold Board.fields_at. cbn [fst snd].
    assert (Hrow : map length (Board._fields (Board.board w)) !! Z.to_nat x
                   = Some (Z.to_nat size)).
    { rewrite Hlen. unfold Board.init. cbn [Board._fields].
      change (map length ?l) with (length <$> l).
      rewrite list_lookup_fmap, lookup_replicate_2 by lia.
      cbn. rewrite length_replicate. reflexivity. }
    change (map length ?l) with (length <$> l) in Hrow.
    rewrite list_lookup_fmap in Hrow.
    destruct (Board._fields (Board.board w) !! Z.to_nat x) as [row|]; [|discriminate].
    cbn in Hrow. injection Hrow as Hrow.
    apply lookup_lt_is_Some_2. lia. }
  set (g := fun xy : Z * Z =>
              Z.of_nat (length (stack_at (Z.to_nat xy.1, Z.to_nat xy.2) (Board.board w))) =? 0).
  set (range := map Z.of_nat (seq 0 (Z.to_nat size))).
  assert (Hfull : Board.full w
                  = (Ok (negb (existsb id (map g (list_prod range range)))), w)).
  { unfold Board.full. unfold bind at 1, gets at 1. fold size. fold range.
    unfold bind at 1.
    rewrite (for_each_pure _ g); [reflexivity|].
    intros [x y] Hin. apply in_prod_iff in Hin as [Hx Hy].
    apply in_range in Hx, Hy. cbn [fst snd].
    destruct (Hcell x y Hx Hy) as [f Hf].
    unfold bind at 1. rewrite field_outcome. cbv zeta. fold size.
    destruct (Z.leb_spec 0 x), (Z.ltb_spec x size), (Z.leb_spec 0 y),
      (Z.ltb_spec y size); try lia.
    cbn [andb]. rewrite Hf. rewrite on_field_empty, Hf.
    unfold g, stack_at. cbn [fst snd]. rewrite Hf. reflexivity. }
  eexists. split; [exact Hfull|].
  rewrite negb_true_iff. split.
  - intros Hnone x y Hx Hy Hempty.
    assert (Hex : existsb id (map g (list_prod range range)) = true);
      [|congruence].
    apply existsb_exists. exists true. split; [|reflexivity].
    apply in_map_iff. exists (x, y). split.
    + unfold g. cbn [fst snd]. rewrite Hempty. reflexivity.
    + apply in_prod; apply in_range; assumption.
  - intros Hall. apply not_true_is_false. intros Hex.
    apply existsb_exists in Hex as (b & Hin & Hb). unfold id in Hb. subst b.
    apply in_map_iff in Hin as ([x y] & Hg & Hin).
    apply in_prod_iff in Hin as [Hx Hy]. apply in_range in Hx, Hy.
    unfold g in Hg. cbn [fst snd] in Hg. apply Z.eqb_eq in Hg.
    apply (Hall x y Hx Hy). destruct (stack_at _ _); [reflexivity|cbn in Hg; lia].
Qed.

Lemma full_iff_no_empty_cell_scenario_C :
  exists b : bool,
    Board.full world_C = (Ok b, world_C) /\
    (b = true <->
     forall x y, 0 <= x < 4 -> 0 <= y < 4 ->
                 stack_at (Z.to_nat x, Z.to_nat y) board_C <> []).
Proof.
  apply (full_iff_no_empty_cell world_C). vm_compute; reflexivity.
Defined.

(** ** Game *)

Ltac grun :=
  unfold Game.on_people, Game.board_apply, Game.print;
  unfold Game.then_, Game.call, Game.done, Game.fail, Game.self_,
    Game.write, Game.supply_get, Game.supply_set,
    Game.pieces_left_of, Game.is_game_over, Game.evaluate_game,
    Game.rules_at;
  cbn [fst snd Game.pieces Game.people Game.supplies Game.rules Game.stdout
       Game.starting_color Game.current_player Game.players Game._size
       Game._board Game._pieces_left].

(** The turn of a [Human] whose two console reads succeed. *)
Lemma human_turn (x y : Z) (e : Game.env) (g : Game.t) (p : Player.t)
    (c : string) :
  Game.people e !! Game.current_player g = Some p ->
  Player.cls p = Player.HumanClass ->
  Player.color p = Some c ->
  Py.str_in c [BLACK; WHITE] = true ->
  let r := fresh (dom (Game.pieces e)) in
  let h1 := <[r := Piece.mk c FLAT]> (Game.pieces e) in
  let out := [Game.prompt p; "input a column"; "input a row"]%string in
  Game.next_action (Game.request_action_of (Ok x) (Ok y)) (e, g)
  = match Board.apply (APlace (Place.mk r x y)) (Board.World h1 (Game._board g)) with
    | (Raise ex, w) => (Game.Failed (Game.Raised ex), Game.after_board e g out w)
    | (Ok _, w) =>
        let s1 := Game.after_board e g out w in
        match Game._pieces_left g !! Game.current_player g with
        | None => (Game.Failed (Game.Raised KeyError), s1)
        | Some d =>
            match Game.supplies e !! d with
            | None => (Game.Failed (Game.Raised NoSuchObject), s1)
            | Some o =>
                match o !! Game.FLATSTONES with
                | None => (Game.Failed (Game.Raised KeyError), s1)
                | Some n =>
                    if n >? 0
                    then Game.switch_players
                           (Game.Env (Board.heap w) (Game.people e)
                              (<[d := <[Game.FLATSTONES := n - 1]> o]> (Game.supplies e))
                              (Game.rules e) (Game.stdout e ++ out), s1.2)
                    else (Game.Failed Game.PiecesLeft, s1)
                end
            end
        end
    end.
Proof.
  intros Hp Hcls Hcol Hin. cbv zeta.
  unfold Game.next_action, Game.request_action_of. grun.
  unfold Player.deref, lift. cbn [fst snd Game.people].
  rewrite Hp. cbn -[Board.apply fresh String.append Game.switch_players].
  rewrite Hp. cbn -[Board.apply fresh String.append Game.switch_players].
  rewrite Hcls. cbn -[Board.apply fresh String.append Game.switch_players].
  rewrite Hp. cbn -[Board.apply fresh String.append Game.switch_players].
  rewrite Hcol. cbn -[Board.apply fresh String.append Game.switch_players].
  unfold Place.init, Piece.init, bind, assert_, gets, modify, ret.
  rewrite Hin. cbn -[Board.apply fresh String.append Game.switch_players].
  rewrite <- !app_assoc. cbn [app].
  unfold Game.call, Game.after_board, Game.prompt. cbn -[Board.apply fresh String.append Game.switch_players].
  rewrite apply_place_eq.
  cbn [Place.x Place.y Place.piece Board.board Board.heap].
  match goal with
  | |- context [Board.field x y ?w] =>
      destruct (Board.field x y w) as [[cl|ex] w0]; [|reflexivity]
  end.
  cbn [Board.board].
  destruct (Board.fields_at cl (Game._board g)) as [f|]; [|reflexivity].
  destruct (_ =? 0); [|reflexivity].
  cbn -[fresh String.append Game.switch_players].
  unfold Piece.is_capstone, Piece.deref, bind, ret. rewrite lookup_insert_eq.
  cbn -[fresh String.append Game.switch_players].
  destruct (Game._pieces_left g !! Game.current_player g) as [d|] eqn:Hd;
    [|reflexivity].
  cbn -[fresh String.append Game.switch_players].
  destruct (Game.supplies e !! d) as [o|] eqn:Ho; [|reflexivity].
  cbn -[fresh String.append Game.switch_players].
  destruct (o !! Game.FLATSTONES) as [n|] eqn:Hn; [|reflexivity].
  cbn -[fresh String.append Game.switch_players].
  destruct (n >? 0); [|reflexivity].
  cbn -[fresh String.append Game.switch_players]. rewrite Hd. cbn -[fresh String.append Game.switch_players]. rewrite Ho. cbn -[fresh String.append Game.switch_players]. rewrite Hn. cbn -[fresh String.append Game.switch_players].
  rewrite ?Ho. reflexivity.
Qed.

(** The turn of a player whose class is not [Human]. *)
Lemma other_turn (column row : result Z) (e : Game.env) (g : Game.t)
    (p : Player.t) :
  Game.people e !! Game.current_player g = Some p ->
  Player.cls p <> Player.HumanClass ->
  Game.next_action (Game.request_action_of column row) (e, g)
  = (Game.Failed (Game.Raised TypeError),
     (Game.Env (Game.pieces e) (Game.people e) (Game.supplies e) (Game.rules e)
               (Game.stdout e ++ [Game.prompt p]), g)).
Proof.
  intros Hp Hcls.
  unfold Game.next_action, Game.request_action_of. grun.
  unfold Player.deref, lift. cbn [fst snd Game.people].
  rewrite Hp. cbn -[String.append]. rewrite Hp. cbn -[String.append].
  destruct (Player.cls p); [reflexivity|congruence|].
  cbn -[String.append]. destruct g; reflexivity.
Qed.

(** The turn of a [Human] whose colour is not one of the two. *)
Lemma human_turn_no_colour (x y : Z) (e : Game.env) (g : Game.t)
    (p : Player.t) :
  Game.people e !! Game.current_player g = Some p ->
  Player.cls p = Player.HumanClass ->
  match Player.color p with
  | Some c => Py.str_in c [BLACK; WHITE] = false
  | None => True
  end ->
  Game.next_action (Game.request_action_of (Ok x) (Ok y)) (e, g)
  = (Game.Failed (Game.Raised (AssertionError PieceColor)),
     (Game.Env (Game.pieces e) (Game.people e) (Game.supplies e) (Game.rules e)
               (Game.stdout e ++ [Game.prompt p; "input a column"; "input a row"]%string),
      g)).
Proof.
  intros Hp Hcls Hcol.
  unfold Game.next_action, Game.request_action_of. grun.
  unfold Player.deref, lift. cbn [fst snd Game.people].
  rewrite Hp. cbn -[String.append]. rewrite Hp. cbn -[String.append].
  rewrite Hcls. cbn -[String.append]. rewrite Hp. cbn -[String.append].
  destruct (Player.color p) as [c|]; cbn -[String.append].
  - unfold Game.call, Place.init, Piece.init, bind, assert_, raise.
    rewrite Hcol. cbn -[String.append].
    rewrite <- !app_assoc. reflexivity.
  - rewrite <- !app_assoc. reflexivity.
Qed.

(** Every turn of the three classes that does not end in an exception
    is the turn of a [Human] of a valid colour. *)
Lemma turn_done_inv (x y : Z) (e : Game.env) (g : Game.t)
    (r : Game.outcome unit) (s' : Game.state) :
  Game.next_action (Game.request_action_of (Ok x) (Ok y)) (e, g) = (r, s') ->
  (r = Game.Done tt \/ r = Game.Failed Game.PiecesLeft) ->
  exists p c,
    Game.people e !! Game.current_player g = Some p /\
    Player.cls p = Player.HumanClass /\ Player.color p = Some c /\
    Py.str_in c [BLACK; WHITE] = true.
Proof.
  intros H Hr.
  destruct (Game.people e !! Game.current_player g) as [p|] eqn:Hp.
  - assert (Hdec : Player.cls p = Player.HumanClass
                   \/ Player.cls p <> Player.HumanClass)
      by (destruct (Player.cls p); auto; right; discriminate).
    destruct Hdec as [Hcls|Hcls].
    + destruct (Player.color p) as [c|] eqn:Hcol.
      * destruct (Py.str_in c [BLACK; WHITE]) eqn:Hin; [eauto 10|].
        rewrite (human_turn_no_colour x y e g p Hp Hcls) in H
          by (rewrite Hcol; exact Hin).
        injection H as <- _. destruct Hr; discriminate.
      * rewrite (human_turn_no_colour x y e g p Hp Hcls) in H
          by (rewrite Hcol; exact I).
        injection H as <- _. destruct Hr; discriminate.
    + rewrite (other_turn _ _ e g p Hp Hcls) in H.
      injection H as <- _. destruct Hr; discriminate.
  - revert H. unfold Game.next_action. grun.
    unfold Player.deref. cbn [fst snd Game.people]. rewrite Hp. cbn.
    intros [= <- _]. destruct Hr; discriminate.
Qed.

(** X24. A game that [Game(...)] builds gives both players the very
    same [dict] object as their supply, the one the rules table holds
    for the size; the first player is the current one, the board is the
    empty board of that size, and the table, its objects and the pieces
    are untouched. *)
Theorem game_init_shares_one_supply (size : Z) (p1 p2 : ref)
    (starting_color : string) (e e' : Game.env) (g : Game.t) :
  Game.init size p1 p2 starting_color e = (Game.Done g, e') ->
  exists d,
    Game.rules e !! size = Some d /\
    Game._pieces_left g !! p1 = Some d /\
    Game._pieces_left g !! p2 = Some d /\
    Game.current_player g = p1 /\ Game.players g = [p1; p2] /\
    Game._board g = Board.init size /\
    Game.supplies e' = Game.supplies e /\ Game.rules e' = Game.rules e /\
    Game.pieces e' = Game.pieces e.
Proof.
  unfold Game.init. grun. unfold Player.assign_color, Player.deref, bind, modify.
  destruct (Game.people e !! p1) as [q1|]; [|discriminate].
  cbn. destruct (_ !! p2) as [q2|]; [|discriminate].
  cbn. destruct (Game.rules e !! size) as [d|] eqn:Hd; [|discriminate].
  cbn. rewrite Hd. intros [= <- <-]. exists d. cbn.
  split; [reflexivity|]. split.
  - destruct (decide (p2 = p1)) as [->|Hne].
    + apply lookup_insert_eq.
    + rewrite lookup_insert_ne by exact Hne. apply lookup_insert_eq.
  - split; [apply lookup_insert_eq|]. auto 10.
Qed.

Lemma game_init_shares_one_supply_two_humans :
  exists d,
    Game.rules Game.two_humans !! 3 = Some d /\
    Game._pieces_left Game.new_game !! 1%positive = Some d /\
    Game._pieces_left Game.new_game !! 2%positive = Some d /\
    Game.current_player Game.new_game = 1%positive /\
    Game.players Game.new_game = [1; 2]%positive /\
    Game._board Game.new_game = Board.init 3 /\
    Game.supplies Game.two_humans_coloured = Game.supplies Game.two_humans /\
    Game.rules Game.two_humans_coloured = Game.rules Game.two_humans /\
    Game.pieces Game.two_humans_coloured = Game.pieces Game.two_humans.
Proof.
  apply (game_init_shares_one_supply 3 1%positive 2%positive WHITE
           Game.two_humans Game.two_humans_coloured Game.new_game).
  vm_compute; reflexivity.
Defined.

(** X25. With the rules table of the class, [Game(...)] over two
    existing players returns normally exactly for the sizes 3 to 8; for
    any other size it raises [KeyError], after both players have been
    given their colours. *)
Theorem game_init_sizes (size : Z) (p1 p2 : ref) (starting_color : string)
    (e : Game.env) (q1 q2 : Player.t) :
  Game.rules e = Game.RULES ->
  Game.people e !! p1 = Some q1 -> Game.people e !! p2 = Some q2 ->
  let other := if String.eqb starting_color WHITE then BLACK else WHITE in
  let people' :=
    <[p2 := Player.mk (Player.cls q2) (Player.name q2) (Some other)]>
      (<[p1 := Player.mk (Player.cls q1) (Player.name q1) (Some starting_color)]>
         (Game.people e)) in
  let e' := Game.Env (Game.pieces e) people' (Game.supplies e) (Game.rules e)
                     (Game.stdout e) in
  (3 <= size <= 8 ->
   exists g, Game.init size p1 p2 starting_color e = (Game.Done g, e')) /\
  (~ 3 <= size <= 8 ->
   Game.init size p1 p2 starting_color e = (Game.Failed (Game.Raised KeyError), e')).
Proof.
  intros Hrules H1 H2. cbv zeta.
  unfold Game.init. grun. unfold Player.assign_color, Player.deref, bind, modify.
  rewrite H1. cbn.
  assert (Hq : exists q, <[p1 := Player.mk (Player.cls q1) (Player.name q1)
                                 (Some starting_color)]> (Game.people e) !! p2 = Some q
                         /\ Player.name q = Player.name q2
                         /\ Player.cls q = Player.cls q2).
  { destruct (decide (p2 = p1)) as [->|Hne].
    - rewrite lookup_insert_eq. eexists. split; [reflexivity|].
      rewrite H1 in H2. injection H2 as <-. split; reflexivity.
    - rewrite lookup_insert_ne by congruence. eauto. }
  destruct Hq as (q & -> & Hname & Hcls). cbn. rewrite Hname, Hcls, Hrules.
  split.
  - intros Hsize.
    assert (Hs : size = 3 \/ size = 4 \/ size = 5 \/ size = 6 \/ size = 7 \/ size = 8)
      by lia.
    destruct Hs as [-> | [-> | [-> | [-> | [-> | ->]]]]]; cbn; eauto.
  - intros Hsize.
    assert (Hnone : Game.RULES !! size = None).
    { apply not_elem_of_list_to_map. cbn. rewrite !elem_of_cons.
      intros Hin. rewrite elem_of_nil in Hin. lia. }
    rewrite Hnone. reflexivity.
Qed.

Lemma game_init_sizes_nine :
  Game.init 9 1%positive 2%positive WHITE Game.two_humans
  = (Game.Failed (Game.Raised KeyError), Game.two_humans_coloured).
Proof.
  pose proof (proj2 (game_init_sizes 9 1%positive 2%positive WHITE
                       Game.two_humans (Player.human "al") (Player.human "bo")
                       eq_refl eq_refl eq_refl)) as H.
  rewrite H by lia. vm_compute; reflexivity.
Defined.

(** [switch_players] only writes [current_player]. *)
Lemma switch_players_outcome (e e' : Game.env) (g g' : Game.t)
    (r : Game.outcome unit) :
  Game.switch_players (e, g) = (r, (e', g')) ->
  e' = e /\ Game._board g' = Game._board g /\
  Game._pieces_left g' = Game._pieces_left g /\
  Game.players g' = Game.players g.
Proof.
  unfold Game.switch_players. grun. unfold lift.
  destruct (Py.index (Game.players g) 0) as [p0|]; cbn;
    [|intros [= _ <- <-]; auto].
  destruct (Game.current_player g =? p0)%positive.
  - destruct (Py.index (Game.players g) 1); cbn; intros [= _ <- <-]; auto.
  - destruct (Py.index (Game.players g) 0); cbn; intros [= _ <- <-]; auto.
Qed.

Lemma switch_players_no_assertion (s s' : Game.state) :
  Game.switch_players s <> (Game.Failed Game.PiecesLeft, s').
Proof.
  unfold Game.switch_players. grun. unfold lift.
  destruct (Py.index (Game.players s.2) 0) as [p0|]; cbn; [|discriminate].
  destruct (Game.current_player s.2 =? p0)%positive.
  - destruct (Py.index (Game.players s.2) 1); cbn; discriminate.
  - destruct (Py.index (Game.players s.2) 0); cbn; discriminate.
Qed.

(** X26. A turn that ends without an exception has spent one flat stone
    of the [dict] object that [_pieces_left] holds for the current
    player: the object lost exactly one flat stone of the positive
    number it had, the board gained exactly one piece, and
    [_pieces_left] and the rules table still point to the same objects,
    so that every player, and every entry of the table, sharing that
    object has one flat stone fewer. *)
Theorem turn_spends_the_shared_supply (x y : Z) (e e' : Game.env)
    (g g' : Game.t) :
  Game.next_action (Game.request_action_of (Ok x) (Ok y)) (e, g)
  = (Game.Done tt, (e', g')) ->
  exists d o n,
    Game._pieces_left g !! Game.current_player g = Some d /\
    Game.supplies e !! d = Some o /\ o !! Game.FLATSTONES = Some n /\ 0 < n /\
    Game.supplies e' = <[d := <[Game.FLATSTONES := n - 1]> o]> (Game.supplies e) /\
    Game._pieces_left g' = Game._pieces_left g /\
    Game.rules e' = Game.rules e /\
    count_pieces (Game._board g') = S (count_pieces (Game._board g)).
Proof.
  intros H.
  destruct (turn_done_inv _ _ _ _ _ _ H (or_introl eq_refl))
    as (p & c & Hp & Hcls & Hcol & Hin).
  rewrite (human_turn x y e g p c Hp Hcls Hcol Hin) in H. cbv zeta in H.
  destruct (Board.apply _ _) as [[[]|ex] w] eqn:Happly; [|discriminate].
  apply place_adds_one_piece in Happly. cbn [Board.board] in Happly.
  destruct (Game._pieces_left g !! Game.current_player g) as [d|] eqn:Hd;
    [|discriminate].
  destruct (Game.supplies e !! d) as [o|] eqn:Ho; [|discriminate].
  destruct (o !! Game.FLATSTONES) as [n|] eqn:Hn; [|discriminate].
  destruct (Z.gtb_spec n 0); [|discriminate].
  apply switch_players_outcome in H as (-> & Hb & Hl & _).
  exists d, o, n. cbn in *. rewrite Hb, Hl.
  repeat split; try reflexivity; try lia; try assumption.
Qed.

Lemma turn_spends_the_shared_supply_first_turn :
  exists d o n,
    Game._pieces_left Game.new_game !! Game.current_player Game.new_game = Some d /\
    Game.supplies Game.two_humans_coloured !! d = Some o /\
    o !! Game.FLATSTONES = Some n /\ 0 < n /\
    Game.supplies Game.after_first_turn.1
    = <[d := <[Game.FLATSTONES := n - 1]> o]> (Game.supplies Game.two_humans_coloured) /\
    Game._pieces_left Game.after_first_turn.2 = Game._pieces_left Game.new_game /\
    Game.rules Game.after_first_turn.1 = Game.rules Game.two_humans_coloured /\
    count_pieces (Game._board Game.after_first_turn.2)
    = S (count_pieces (Game._board Game.new_game)).
Proof.
  apply (turn_spends_the_shared_supply 0 0 Game.two_humans_coloured
           Game.after_first_turn.1 Game.new_game Game.after_first_turn.2).
  vm_compute; reflexivity.
Defined.

(** X27. The supply is checked after the board has been changed: a turn
    that fails the assertion on [_pieces_left] leaves the new piece on
    the board, the supply as it was and the same player to move. *)
Theorem turn_without_supply_keeps_the_piece (x y : Z) (e e' : Game.env)
    (g g' : Game.t) :
  Game.next_action (Game.request_action_of (Ok x) (Ok y)) (e, g)
  = (Game.Failed Game.PiecesLeft, (e', g')) ->
  count_pieces (Game._board g') = S (count_pieces (Game._board g)) /\
  Game.supplies e' = Game.supplies e /\
  Game.current_player g' = Game.current_player g /\
  exists d o n,
    Game._pieces_left g !! Game.current_player g = Some d /\
    Game.supplies e !! d = Some o /\ o !! Game.FLATSTONES = Some n /\ n <= 0.
Proof.
  intros H.
  destruct (turn_done_inv _ _ _ _ _ _ H (or_intror eq_refl))
    as (p & c & Hp & Hcls & Hcol & Hin).
  rewrite (human_turn x y e g p c Hp Hcls Hcol Hin) in H. cbv zeta in H.
  destruct (Board.apply _ _) as [[[]|ex] w] eqn:Happly; [|discriminate].
  apply place_adds_one_piece in Happly. cbn [Board.board] in Happly.
  destruct (Game._pieces_left g !! Game.current_player g) as [d|] eqn:Hd;
    [|discriminate].
  destruct (Game.supplies e !! d) as [o|] eqn:Ho; [|discriminate].
  destruct (o !! Game.FLATSTONES) as [n|] eqn:Hn; [|discriminate].
  destruct (Z.gtb_spec n 0).
  - exfalso. exact (switch_players_no_assertion _ _ H).
  - injection H as <- <-. cbn. repeat split; try assumption.
    exists d, o, n. auto.
Qed.

Lemma turn_without_supply_keeps_the_piece_scenario :
  count_pieces
    (Game._board
       (Game.mk WHITE 1%positive [1; 2]%positive 3
          (Board.put_field (0%nat, 0%nat) (Field.mk [1%positive]) (Board.init 3))
          (Game._pieces_left Game.new_game)))
  = S (count_pieces (Game._board Game.new_game)).
Proof.
  apply (turn_without_supply_keeps_the_piece 0 0 Game.no_supply
           (Game.Env (<[1%positive := Piece.mk WHITE FLAT]> ∅)
              (Game.people Game.no_supply) (Game.supplies Game.no_supply)
              Game.RULES Game.first_turn_out)
           Game.new_game
           (Game.mk WHITE 1%positive [1; 2]%positive 3
              (Board.put_field (0%nat, 0%nat) (Field.mk [1%positive]) (Board.init 3))
              (Game._pieces_left Game.new_game))).
  vm_compute; reflexivity.
Defined.

(** X28. The turn of a [Bot], or of a plain [Player], always raises
    [TypeError]: nothing but the line printed for the player has
    changed, and the same player is to move. *)
Theorem turn_of_bot_raises (column row : result Z) (e : Game.env) (g : Game.t)
    (p : Player.t) :
  Game.people e !! Game.current_player g = Some p ->
  Player.cls p = Player.BotClass \/ Player.cls p = Player.PlayerClass ->
  Game.next_action (Game.request_action_of column row) (e, g)
  = (Game.Failed (Game.Raised TypeError),
     (Game.Env (Game.pieces e) (Game.people e) (Game.supplies e) (Game.rules e)
               (Game.stdout e ++ [Game.prompt p]), g)).
Proof.
  intros Hp Hcls. apply other_turn; [exact Hp|].
  destruct Hcls as [-> | ->]; discriminate.
Qed.

Lemma turn_of_bot_raises_scenario :
  let e := Game.Env ∅ (<[1%positive := Player.bot]> ∅) Game.RULES_supplies
                    Game.RULES [] in
  Game.next_action (Game.request_action_of (Ok 0) (Ok 0)) (e, Game.new_game)
  = (Game.Failed (Game.Raised TypeError),
     (Game.Env (Game.pieces e) (Game.people e) (Game.supplies e) (Game.rules e)
               (Game.stdout e ++ [Game.prompt Player.bot]), Game.new_game)).
Proof.
  intros e.
  apply (turn_of_bot_raises (Ok 0) (Ok 0) e Game.new_game Player.bot);
    [reflexivity|left; reflexivity].
Defined.

Lemma switch_players_two (e : Game.env) (sc : string) (cur p1 p2 : ref)
    (size : Z) (b : Board.t) (left : gmap positive ref) :
  Game.switch_players (e, Game.mk sc cur [p1; p2] size b left)
  = (Game.Done tt,
     (e, Game.mk sc (if Pos.eqb cur p1 then p2 else p1) [p1; p2] size b left)).
Proof.
  unfold Game.switch_players. grun. unfold lift.
  change (Py.index [p1; p2] 0) with (Ok p1).
  change (Py.index [p1; p2] 1) with (Ok p2). cbn -[Pos.eqb].
  destruct (Pos.eqb cur p1); reflexivity.
Qed.

(** X29. With two distinct players in [players], [switch_players] gives
    the move to the other one, and a second call gives it back: the
    game is then exactly as before the two calls. *)
Theorem switch_players_alternates (e : Game.env) (g : Game.t) (p1 p2 : ref) :
  Game.players g = [p1; p2] -> p1 <> p2 ->
  Game.current_player g = p1 \/ Game.current_player g = p2 ->
  exists g1,
    Game.switch_players (e, g) = (Game.Done tt, (e, g1)) /\
    Game.current_player g1 <> Game.current_player g /\
    (Game.current_player g1 = p1 \/ Game.current_player g1 = p2) /\
    Game.switch_players (e, g1) = (Game.Done tt, (e, g)).
Proof.
  intros Hps Hne Hcur. destruct g as [sc cur ps size b left].
  cbn [Game.players Game.current_player] in *. subst ps.
  eexists. rewrite switch_players_two. split; [reflexivity|].
  cbn [Game.current_player]. rewrite switch_players_two.
  destruct Hcur as [-> | ->].
  - rewrite Pos.eqb_refl. destruct (Pos.eqb_spec p2 p1); [congruence|]. auto.
  - destruct (Pos.eqb_spec p2 p1); [congruence|]. rewrite Pos.eqb_refl. auto.
Qed.

Lemma switch_players_alternates_new_game :
  exists g1,
    Game.switch_players (Game.two_humans_coloured, Game.new_game)
    = (Game.Done tt, (Game.two_humans_coloured, g1)) /\
    Game.current_player g1 <> Game.current_player Game.new_game /\
    (Game.current_player g1 = 1%positive \/ Game.current_player g1 = 2%positive) /\
    Game.switch_players (Game.two_humans_coloured, g1)
    = (Game.Done tt, (Game.two_humans_coloured, Game.new_game)).
Proof.
  apply (switch_players_alternates Game.two_humans_coloured Game.new_game
           1%positive 2%positive); [reflexivity|discriminate|left; reflexivity].
Defined.
